(** * Pension Modeler ([streamlit_app.py]): projection arithmetic and scenario sweep

    A shallow embedding of the four projection functions of the page, of the
    module-level calculations and checks built on them, and of the scenario
    loop with the data frame it is turned into.

    Numbers.  Python [int] is [Z].  Python [float] is read as an exact
    rational ([Q]): the page only adds, multiplies, divides by literals,
    raises to integer powers, takes [min], [abs] and [round], and compares,
    all of which are closed over the rationals.  Binary rounding, overflow
    and the special values of IEEE doubles are outside this reading;
    numerical results are therefore stated up to [Qeq] ([==]).

    Where a statement turns on the rounding itself, the calculations block is
    also given in double precision (module [Float64], on the binary64 floats
    of the kernel, which add, multiply and divide as Python's floats do). *)

From Stdlib Require Import ZArith QArith Qabs Qround Qpower Lqa Lia.
From Stdlib Require Import Floats Uint63.
From Stdlib Require Import Bool List String Sorted Permutation.
Import ListNotations.

Local Open Scope Q_scope.

(** ** Python runtime: exceptions and numeric built-ins *)

Module Py.

(** The exceptions that the modelled statements can raise.  [Unsupported]
    is not a Python exception: it marks a use of a library routine that
    this development does not cover. *)
Inductive exn : Type :=
| ZeroDivisionError
| OverflowError
| KeyError (label : string)
| Unsupported.

Inductive result (A : Type) : Type :=
| Ok (a : A)
| Raise (e : exn).

Arguments Ok {A} a.
Arguments Raise {A} e.

Definition bind {A B : Type} (m : result A) (k : A -> result B) : result B :=
  match m with
  | Ok a => k a
  | Raise e => Raise e
  end.

(** [x > y] on numbers. *)
Definition gt (x y : Q) : bool :=
  match x ?= y with
  | Gt => true
  | _ => false
  end.

(** [x < y] on numbers. *)
Definition lt (x y : Q) : bool :=
  match x ?= y with
  | Lt => true
  | _ => false
  end.

(** [min(x, y)]: the first argument is kept unless the second is strictly
    smaller. *)
Definition min (x y : Q) : Q := if lt y x then y else x.

(** [max(0, n)] on integers. *)
Definition max0 (n : Z) : Z := if (0 <? n)%Z then n else 0%Z.

(** [b ** n] with a float base and an int exponent: a zero base cannot be
    raised to a negative power.  The [OverflowError] of a result beyond the
    range of a double has no counterpart in the exact reading; it is part of
    [Float64.pow]. *)
Definition pow (b : Q) (n : Z) : result Q :=
  if (n <? 0)%Z && Qeq_bool b 0 then Raise ZeroDivisionError else Ok (b ^ n).

(** Nearest integer, ties going to the even neighbour. *)
Definition round_half_even (x : Q) : Z :=
  let f := Qfloor x in
  match ((x - inject_Z f) ?= (1 # 2))%Q with
  | Lt => f
  | Gt => (f + 1)%Z
  | Eq => if Z.even f then f else (f + 1)%Z
  end.

(** [round(x, ndigits)] on a float; the result is again a float. *)
Definition round (x : Q) (ndigits : Z) : Q :=
  inject_Z (round_half_even (x * 10 ^ ndigits)) / 10 ^ ndigits.

End Py.

Import Py.

Notation "x <- m ;; k" := (Py.bind m (fun x => k))
  (at level 61, m at next level, right associativity).

(** ** The part of pandas that the page uses *)

Module Pandas.

(** A value stored in a cell. *)
Inductive cell : Type :=
| Int (z : Z)
| Float (q : Q)
| Str (s : string).

(** A Python [dict] with string keys, in insertion order. *)
Definition dict : Type := list (string * cell).

Fixpoint get (key : string) (d : dict) : option cell :=
  match d with
  | [] => None
  | (k, v) :: rest => if String.eqb k key then Some v else get key rest
  end.

Definition mem (key : string) (labels : list string) : bool :=
  existsb (String.eqb key) labels.

(** A frame: its column labels and its records, top to bottom.  The row
    labels (the index of pandas) are not represented: what is said of a frame
    is said of its columns and of the contents of its rows. *)
Record DataFrame : Type := mkDataFrame {
  columns : list string;
  records : list dict
}.

(** Labels of [d] that are not yet among [seen], appended in order. *)
Fixpoint add_labels (seen : list string) (d : dict) : list string :=
  match d with
  | [] => seen
  | (k, _) :: rest =>
      add_labels (if mem k seen then seen else seen ++ [k]) rest
  end.

(** [pd.DataFrame(rows)] for a list of dicts: the columns are the keys met
    while reading the dicts in order, so an empty list gives a frame with
    no column at all. *)
Definition of_records (rows : list dict) : DataFrame :=
  {| columns := fold_left add_labels rows []; records := rows |}.

(** The integer stored under [col], when there is one. *)
Definition int_key (col : string) (d : dict) : option Z :=
  match get col d with
  | Some (Int z) => Some z
  | _ => None
  end.

Definition key_of (col : string) (d : dict) : Z :=
  match int_key col d with
  | Some z => z
  | None => 0%Z
  end.

(** Insertion of a record into a list ordered by ascending key; among equal
    keys the inserted record goes first. *)
Fixpoint insert_by (col : string) (d : dict) (l : list dict) : list dict :=
  match l with
  | [] => [d]
  | e :: rest =>
      if (key_of col d <=? key_of col e)%Z then d :: l
      else e :: insert_by col d rest
  end.

(** Ascending sort on the key; records with equal keys keep their order. *)
Definition sort_by (col : string) (l : list dict) : list dict :=
  fold_right (insert_by col) [] l.

(** [df.sort_values([col])]: the label is looked up among the columns and
    [KeyError] is raised when it is absent; otherwise the records are put in
    ascending order of that column.  Only integer columns are covered. *)
Definition sort_values (df : DataFrame) (col : string) : result DataFrame :=
  if mem col (columns df) then
    if forallb (fun d => match int_key col d with Some _ => true | None => false end)
               (records df)
    then Ok {| columns := columns df; records := sort_by col (records df) |}
    else Raise Unsupported
  else Raise (KeyError col).

End Pandas.

Import Pandas.

(** ** Sidebar inputs *)

(** How the retirement date is given: the radio button of the sidebar. *)
Inductive target : Type :=
| ByAge (retirement_age : Z)
| ByYear (retirement_year : Z).

(** The values read from the sidebar widgets, with [today.year].  The salary
    and the current threshold are entered as integers and the other amounts
    as floats; all of them enter the arithmetic as numbers. *)
Record Inputs : Type := mkInputs {
  current_year : Z;
  current_age : Z;
  current_salary : Q;
  salary_growth_pct : Q;
  current_service : Q;
  target_mode : target;
  annual_service_accrual : Q;
  max_service_cap : Q;
  valuation_factor : Q;
  sft_now : Q;
  sft_growth_pct : Q
}.

Definition years_to_retirement (inp : Inputs) : Z :=
  match target_mode inp with
  | ByAge retirement_age => max0 (retirement_age - current_age inp)
  | ByYear retirement_year => max0 (retirement_year - current_year inp)
  end.

Definition retirement_year (inp : Inputs) : Z :=
  match target_mode inp with
  | ByAge _ => (current_year inp + years_to_retirement inp)%Z
  | ByYear retirement_year => retirement_year
  end.

Definition retirement_age (inp : Inputs) : Z :=
  match target_mode inp with
  | ByAge retirement_age => retirement_age
  | ByYear _ => (current_age inp + years_to_retirement inp)%Z
  end.

(** ** Functions *)

Definition project_final_salary (salary_now growth_pct : Q) (years : Z) : result Q :=
  g <- pow (1 + growth_pct / 100) years ;;
  Ok (salary_now * g).

Definition project_service (service_now accrual_per_year : Q) (years : Z) (cap : Q) : Q :=
  Py.min (service_now + accrual_per_year * inject_Z years) cap.

Definition sft_at_year (sft_now growth_pct : Q) (years : Z) : result Q :=
  g <- pow (1 + growth_pct / 100) years ;;
  Ok (sft_now * g).

Definition classic_db_pension (final_salary service_years : Q) : Q * Q :=
  let annual_pension := final_salary * (service_years / 80) in
  let lump_sum := final_salary * (service_years / 30) in
  (annual_pension, lump_sum).

(** ** Calculations *)

(** The module-level results of the single scenario. *)
Record Projection : Type := mkProjection {
  final_salary : Q;
  service_at_retirement : Q;
  annual_pension : Q;
  lump_sum : Q;
  sft_value : Q;
  sft_threshold_future : Q
}.

(** The calculations block, for a given number of years to retirement. *)
Definition calculations_at (inp : Inputs) (years : Z) : result Projection :=
  final_salary <- project_final_salary (current_salary inp) (salary_growth_pct inp) years ;;
  let service_at_retirement :=
    project_service (current_service inp) (annual_service_accrual inp) years
                    (max_service_cap inp) in
  let '(annual_pension, lump_sum) := classic_db_pension final_salary service_at_retirement in
  let sft_value := annual_pension * valuation_factor inp + lump_sum in
  sft_threshold_future <- sft_at_year (sft_now inp) (sft_growth_pct inp) years ;;
  Ok (mkProjection final_salary service_at_retirement annual_pension lump_sum
                   sft_value sft_threshold_future).

Definition calculations (inp : Inputs) : result Projection :=
  calculations_at inp (years_to_retirement inp).

(** ** Checks *)

Definition tolerance : Q := 1 # 1000000000.

Definition service_hit_cap (service_at_retirement max_service_cap : Q) : bool :=
  Py.lt (Qabs (service_at_retirement - max_service_cap)) tolerance.

Definition issues (inp : Inputs) (p : Projection) : list string :=
  (if (years_to_retirement inp =? 0)%Z
   then ["Retirement is this year (years to retirement = 0)."%string] else [])
  ++ (if service_hit_cap (service_at_retirement p) (max_service_cap inp)
      then ["Service hit the cap. Consider raising the cap or revising accrual."%string]
      else [])
  ++ (if (retirement_age inp <? current_age inp)%Z
      then ["Retirement age is less than current age."%string] else []).

(** ** Summary: the threshold banner *)

Inductive banner : Type :=
| error (msg : string)
| success (msg : string).

Definition over_threshold (p : Projection) : bool :=
  Py.gt (sft_value p) (sft_threshold_future p).

Definition sft_banner (p : Projection) : banner :=
  if Py.gt (sft_value p) (sft_threshold_future p)
  then error "⚠️ Over the SFT threshold based on current assumptions."
  else success "✅ Within SFT threshold under current assumptions.".

(** ** Scenarios *)

(** The body of the loop over the selected ages: the dict appended for [age]. *)
Definition scenario_row (inp : Inputs) (age : Z) : result dict :=
  let yrs := max0 (age - current_age inp) in
  let ry := (current_year inp + yrs)%Z in
  fs <- project_final_salary (current_salary inp) (salary_growth_pct inp) yrs ;;
  let svc := project_service (current_service inp) (annual_service_accrual inp) yrs
                             (max_service_cap inp) in
  let '(pen, ls) := classic_db_pension fs svc in
  let sft_val := pen * valuation_factor inp + ls in
  sft_thr <- sft_at_year (sft_now inp) (sft_growth_pct inp) yrs ;;
  let over := Py.gt sft_val sft_thr in
  Ok [ ("Ret Age"%string, Int age);
       ("Ret Year"%string, Int ry);
       ("Years to Ret"%string, Int yrs);
       ("Service (yrs)"%string, Float (Py.round svc 2));
       ("Final Salary (€)"%string, Float (Py.round fs 0));
       ("Annual Pension (€)"%string, Float (Py.round pen 0));
       ("Lump Sum (€)"%string, Float (Py.round ls 0));
       ("SFT Value (€)"%string, Float (Py.round sft_val 0));
       ("SFT Threshold (€)"%string, Float (Py.round sft_thr 0));
       ("Over SFT?"%string, Str (if over then "Yes" else "No")) ].

(** [for age in ages: ... rows.append({...})], from the rows gathered so far. *)
Fixpoint scenario_loop (inp : Inputs) (ages : list Z) (rows : list dict)
  : result (list dict) :=
  match ages with
  | [] => Ok rows
  | age :: rest =>
      r <- scenario_row inp age ;;
      scenario_loop inp rest (rows ++ [r])
  end.

(** The scenario table: [rows = []], the loop, then
    [pd.DataFrame(rows).sort_values(["Ret Age"])]. *)
Definition scenarios (inp : Inputs) (ages : list Z) : result DataFrame :=
  rows <- scenario_loop inp ages [] ;;
  sort_values (of_records rows) "Ret Age".

(** ** The calculations block in double precision *)

Module Float64.

(** [float(n)] for an int below 2^63 in absolute value. *)
Definition of_int (n : Z) : float :=
  if (n <? 0)%Z then (- of_uint63 (Uint63.of_Z (- n)))%float
  else of_uint63 (Uint63.of_Z n).

(** [min(x, y)]: the first argument is kept unless the second is strictly
    smaller. *)
Definition min (x y : float) : float := if (y <? x)%float then y else x.

(** The values of the sidebar that the calculations block reads. *)
Record Inputs : Type := mkInputs {
  current_salary : float;
  salary_growth_pct : float;
  current_service : float;
  annual_service_accrual : float;
  max_service_cap : float;
  valuation_factor : float;
  sft_now : float;
  sft_growth_pct : float
}.

Record Projection : Type := mkProjection {
  final_salary : float;
  service_at_retirement : float;
  annual_pension : float;
  lump_sum : float;
  sft_value : float;
  sft_threshold_future : float
}.

Definition with_salary (inp : Inputs) (salary : float) : Inputs :=
  {| current_salary := salary;
     salary_growth_pct := salary_growth_pct inp;
     current_service := current_service inp;
     annual_service_accrual := annual_service_accrual inp;
     max_service_cap := max_service_cap inp;
     valuation_factor := valuation_factor inp;
     sft_now := sft_now inp;
     sft_growth_pct := sft_growth_pct inp |}.

Section Page.

(** The [pow] of the C library, which Python calls for a float power. *)
Variable libm_pow : float -> float -> float.

(** [b ** n] with a float base and an int exponent: exponent 0 gives 1.0
    without a call to the library, a zero base cannot be raised to a negative
    power, and a finite base whose power is out of range overflows. *)
Definition pow (b : float) (n : Z) : result float :=
  if (n =? 0)%Z then Ok 1%float
  else if (n <? 0)%Z && (b =? 0)%float then Raise ZeroDivisionError
  else
    let r := libm_pow b (of_int n) in
    if is_infinity r && negb (is_infinity b) then Raise OverflowError else Ok r.

Definition project_final_salary (salary_now growth_pct : float) (years : Z)
  : result float :=
  g <- pow (1 + growth_pct / 100)%float years ;;
  Ok (salary_now * g)%float.

Definition project_service (service_now accrual_per_year : float) (years : Z)
  (cap : float) : float :=
  min (service_now + accrual_per_year * of_int years)%float cap.

Definition sft_at_year (sft_now growth_pct : float) (years : Z) : result float :=
  g <- pow (1 + growth_pct / 100)%float years ;;
  Ok (sft_now * g)%float.

Definition classic_db_pension (final_salary service_years : float) : float * float :=
  let annual_pension := (final_salary * (service_years / 80))%float in
  let lump_sum := (final_salary * (service_years / 30))%float in
  (annual_pension, lump_sum).

(** The calculations block, for a given number of years to retirement. *)
Definition calculations_at (inp : Inputs) (years : Z) : result Projection :=
  final_salary <- project_final_salary (current_salary inp) (salary_growth_pct inp) years ;;
  let service_at_retirement :=
    project_service (current_service inp) (annual_service_accrual inp) years
                    (max_service_cap inp) in
  let '(annual_pension, lump_sum) := classic_db_pension final_salary service_at_retirement in
  let sft_value := (annual_pension * valuation_factor inp + lump_sum)%float in
  sft_threshold_future <- sft_at_year (sft_now inp) (sft_growth_pct inp) years ;;
  Ok (mkProjection final_salary service_at_retirement annual_pension lump_sum
                   sft_value sft_threshold_future).

End Page.

End Float64.

(** ** Vocabulary of the statements *)

(** The inputs [inp] with the current salary replaced by [salary]. *)
Definition with_salary (inp : Inputs) (salary : Q) : Inputs :=
  {| current_year := current_year inp;
     current_age := current_age inp;
     current_salary := salary;
     salary_growth_pct := salary_growth_pct inp;
     current_service := current_service inp;
     target_mode := target_mode inp;
     annual_service_accrual := annual_service_accrual inp;
     max_service_cap := max_service_cap inp;
     valuation_factor := valuation_factor inp;
     sft_now := sft_now inp;
     sft_growth_pct := sft_growth_pct inp |}.

(** The table row that shows the single-scenario results [p] for a retirement
    at [age]: the reference against which the loop body is compared. *)
Definition row_of_projection (inp : Inputs) (age : Z) (p : Projection) : dict :=
  let years := Z.max 0 (age - current_age inp) in
  [ ("Ret Age"%string, Int age);
    ("Ret Year"%string, Int (current_year inp + years));
    ("Years to Ret"%string, Int years);
    ("Service (yrs)"%string, Float (Py.round (service_at_retirement p) 2));
    ("Final Salary (€)"%string, Float (Py.round (final_salary p) 0));
    ("Annual Pension (€)"%string, Float (Py.round (annual_pension p) 0));
    ("Lump Sum (€)"%string, Float (Py.round (lump_sum p) 0));
    ("SFT Value (€)"%string, Float (Py.round (sft_value p) 0));
    ("SFT Threshold (€)"%string, Float (Py.round (sft_threshold_future p) 0));
    ("Over SFT?"%string, Str (if over_threshold p then "Yes" else "No")) ].

(** The age a row was computed for. *)
Definition ret_age (r : dict) : Z := key_of "Ret Age" r.

(** [r] is the row of the table for a retirement at [age]: the display of the
    single-scenario calculations run with [max(0, age - current_age)] years. *)
Definition is_row_for (inp : Inputs) (age : Z) (r : dict) : Prop :=
  exists p,
    calculations_at inp (Z.max 0 (age - current_age inp)) = Ok p
    /\ r = row_of_projection inp age p.

(** The three messages of the checks. *)
Definition retirement_this_year_msg : string :=
  "Retirement is this year (years to retirement = 0).".

Definition service_hit_cap_msg : string :=
  "Service hit the cap. Consider raising the cap or revising accrual.".

Definition retirement_before_now_msg : string :=
  "Retirement age is less than current age.".

(** The retirement target of the sidebar lies before the current age or year. *)
Definition target_in_past (inp : Inputs) : bool :=
  match target_mode inp with
  | ByAge retirement_age => (retirement_age <? current_age inp)%Z
  | ByYear retirement_year => (retirement_year <? current_year inp)%Z
  end.

(** The service accrued by retirement, before the cap is applied. *)
Definition accrued_service (inp : Inputs) (years : Z) : Q :=
  current_service inp + annual_service_accrual inp * inject_Z years.

(** The labels of a scenario row, in the order of the dict. *)
Definition scenario_labels : list string :=
  [ "Ret Age"; "Ret Year"; "Years to Ret"; "Service (yrs)"; "Final Salary (€)";
    "Annual Pension (€)"; "Lump Sum (€)"; "SFT Value (€)"; "SFT Threshold (€)";
    "Over SFT?" ]%string.

(** * Properties *)

(** ** Comparisons, [min], [max] and powers *)

Lemma lt_true_iff (x y : Q) : Py.lt x y = true <-> x < y.
Proof.
  unfold Py.lt. rewrite Qlt_alt. destruct (x ?= y); split; congruence.
Qed.

Lemma lt_false_iff (x y : Q) : Py.lt x y = false <-> y <= x.
Proof.
  rewrite <- not_true_iff_false, lt_true_iff. split.
  - apply Qnot_lt_le.
  - apply Qle_not_lt.
Qed.

Lemma gt_true_iff (x y : Q) : Py.gt x y = true <-> y < x.
Proof.
  unfold Py.gt. change (y < x) with (x > y). rewrite Qgt_alt.
  destruct (x ?= y); split; congruence.
Qed.

Lemma gt_false_iff (x y : Q) : Py.gt x y = false <-> x <= y.
Proof.
  rewrite <- not_true_iff_false, gt_true_iff. split.
  - apply Qnot_lt_le.
  - apply Qle_not_lt.
Qed.

Lemma min_above (x cap : Q) : cap < x -> Py.min x cap = cap.
Proof.
  intros H. unfold Py.min. apply lt_true_iff in H. now rewrite H.
Qed.

Lemma min_within (x cap : Q) : x <= cap -> Py.min x cap = x.
Proof.
  intros H. unfold Py.min. apply lt_false_iff in H. now rewrite H.
Qed.

Lemma min_le_cap (x cap : Q) : Py.min x cap <= cap.
Proof.
  destruct (Qlt_le_dec cap x) as [H | H].
  - rewrite (min_above _ _ H). apply Qle_refl.
  - now rewrite (min_within _ _ H).
Qed.

Lemma min_nonneg (x cap : Q) : 0 <= x -> 0 <= cap -> 0 <= Py.min x cap.
Proof.
  intros Hx Hc. unfold Py.min. now destruct (Py.lt cap x).
Qed.

Lemma max0_nonneg (n : Z) : (0 <= max0 n)%Z.
Proof.
  unfold max0. destruct (Z.ltb_spec 0 n); lia.
Qed.

Lemma max0_is_max (n : Z) : max0 n = Z.max 0 n.
Proof.
  unfold max0. destruct (Z.ltb_spec 0 n); lia.
Qed.

Lemma pow_nonneg_exponent (b : Q) (n : Z) : (0 <= n)%Z -> pow b n = Ok (b ^ n).
Proof.
  intros Hn. unfold pow.
  destruct (Z.ltb_spec n 0) as [H | H]; [lia | reflexivity].
Qed.

Lemma growth_base_ge_1 (growth_pct : Q) : 0 <= growth_pct -> 1 <= 1 + growth_pct / 100.
Proof.
  intros H. unfold Qdiv.
  assert (0 <= growth_pct * / 100) by (apply Qmult_le_0_compat; [assumption | discriminate]).
  lra.
Qed.

Lemma project_final_salary_value (salary_now growth_pct : Q) (years : Z) :
  (0 <= years)%Z ->
  project_final_salary salary_now growth_pct years
  = Ok (salary_now * (1 + growth_pct / 100) ^ years).
Proof.
  intros H. unfold project_final_salary. now rewrite (pow_nonneg_exponent _ _ H).
Qed.

Lemma sft_at_year_value (sft growth_pct : Q) (years : Z) :
  (0 <= years)%Z ->
  sft_at_year sft growth_pct years = Ok (sft * (1 + growth_pct / 100) ^ years).
Proof.
  intros H. unfold sft_at_year. now rewrite (pow_nonneg_exponent _ _ H).
Qed.

(** With non-negative growth the compounded factor does not decrease as the
    number of years grows. *)
Lemma growth_factor_monotone (growth_pct : Q) (years1 years2 : Z) :
  0 <= growth_pct -> (years1 <= years2)%Z ->
  (1 + growth_pct / 100) ^ years1 <= (1 + growth_pct / 100) ^ years2.
Proof.
  intros Hg Hy. apply Qpower_le_compat_l; [assumption | now apply growth_base_ge_1].
Qed.

Lemma growth_factor_nonneg (growth_pct : Q) (years : Z) :
  0 <= growth_pct -> 0 <= (1 + growth_pct / 100) ^ years.
Proof.
  intros Hg. apply Qpower_0_le.
  apply Qle_trans with 1; [discriminate | now apply growth_base_ge_1].
Qed.

(** The calculations block succeeds for every non-negative number of years,
    and its fields are the values of the four functions. *)
Lemma calculations_at_value (inp : Inputs) (years : Z) :
  (0 <= years)%Z ->
  let g := (1 + salary_growth_pct inp / 100) ^ years in
  let fs := current_salary inp * g in
  let svc := project_service (current_service inp) (annual_service_accrual inp) years
                             (max_service_cap inp) in
  calculations_at inp years
  = Ok (mkProjection fs svc (fs * (svc / 80)) (fs * (svc / 30))
          (fs * (svc / 80) * valuation_factor inp + fs * (svc / 30))
          (sft_now inp * (1 + sft_growth_pct inp / 100) ^ years)).
Proof.
  intros H. unfold calculations_at.
  rewrite (project_final_salary_value _ _ _ H), (sft_at_year_value _ _ _ H).
  reflexivity.
Qed.

Lemma years_to_retirement_nonneg (inp : Inputs) : (0 <= years_to_retirement inp)%Z.
Proof.
  unfold years_to_retirement. destruct (target_mode inp); apply max0_nonneg.
Qed.

(** Whatever the sidebar holds, the calculations block returns. *)
Lemma calculations_returns (inp : Inputs) : exists p, calculations inp = Ok p.
Proof.
  unfold calculations. eexists.
  apply calculations_at_value, years_to_retirement_nonneg.
Qed.

(** The default sidebar values: retirement at 65 from age 55, ten years
    ahead, with 30 years of service and a valuation within the threshold. *)
Example default_scenario :
  let inp := mkInputs 2025 55 100000 2 20 (ByAge 65) 1 40 20 2000000 0 in
  years_to_retirement inp = 10%Z
  /\ retirement_year inp = 2035%Z
  /\ exists p,
      calculations inp = Ok p
      /\ service_at_retirement p = 30
      /\ Py.round (final_salary p) 0 = 121899
      /\ Py.round (annual_pension p) 0 = 45712
      /\ over_threshold p = false
      /\ issues inp p = [].
Proof.
  cbv zeta. split; [reflexivity |]. split; [reflexivity |].
  eexists. split; [vm_compute; reflexivity |].
  repeat split; vm_compute; reflexivity.
Qed.

(** ** Service Projector *)

(** C1 (as the code has it): for non-negative accrual and years,
    [project_service] never exceeds [cap]; when [base_service] already exceeds
    [cap] the result is [cap]; when [base_service] is within [cap] the result
    is not below [base_service]; and with a zero accrual and [base_service]
    within [cap] the result equals [base_service]. *)
Theorem project_service_clamps_to_cap
  (base_service accrual_per_year : Q) (years : Z) (cap : Q)
  (Haccrual : 0 <= accrual_per_year) (Hyears : (0 <= years)%Z) :
  project_service base_service accrual_per_year years cap <= cap
  /\ (cap < base_service ->
      project_service base_service accrual_per_year years cap = cap)
  /\ (base_service <= cap ->
      base_service <= project_service base_service accrual_per_year years cap)
  /\ (accrual_per_year == 0 -> base_service <= cap ->
      project_service base_service accrual_per_year years cap == base_service).
Proof.
  assert (Hgrow : 0 <= accrual_per_year * inject_Z years).
  { apply Qmult_le_0_compat; [assumption |].
    change 0 with (inject_Z 0). now rewrite <- Zle_Qle. }
  unfold project_service. repeat split.
  - apply min_le_cap.
  - intros Hb. apply min_above. lra.
  - intros Hb. unfold Py.min.
    destruct (Py.lt cap _); [assumption | lra].
  - intros Ha Hb. rewrite min_within.
    + rewrite Ha. ring.
    + rewrite Ha. lra.
Qed.

(** The theorem at service 30, accrual 0, 10 years and cap 40. *)
Lemma project_service_clamps_to_cap_witness :
  project_service 30 0 10 40 <= 40
  /\ (40 < 30 -> project_service 30 0 10 40 = 40)
  /\ (30 <= 40 -> 30 <= project_service 30 0 10 40)
  /\ (0 == 0 -> 30 <= 40 -> project_service 30 0 10 40 == 30).
Proof.
  apply (project_service_clamps_to_cap 30 0 10 40); [discriminate | lia].
Defined.

(** C1 as stated fails: with 45 years of service reckoned and a cap of 40,
    the projected service is 40, below the 45 already held, whether the
    accrual is 1 or 0. *)
Lemma project_service_lowers_service_above_cap :
  40 < 45 /\ 0 <= 1 /\ (0 <= 10)%Z
  /\ project_service 45 1 10 40 = 40
  /\ ~ project_service 45 1 10 40 == 45
  /\ project_service 45 0 10 40 = 40
  /\ ~ project_service 45 0 10 40 == 45.
Proof.
  repeat split; try reflexivity; try discriminate.
Qed.

(** C8: when the accrued service exceeds the cap, [project_service] returns
    the cap itself and the "service hit the cap" check holds; the sign of the
    accrual and of the years plays no part. *)
Theorem project_service_hits_cap
  (current_service accrual : Q) (years : Z) (cap : Q)
  (Hover : cap < current_service + accrual * inject_Z years) :
  project_service current_service accrual years cap = cap
  /\ service_hit_cap (project_service current_service accrual years cap) cap = true.
Proof.
  unfold project_service. rewrite (min_above _ _ Hover). split; [reflexivity |].
  unfold service_hit_cap. apply lt_true_iff.
  assert (E : cap - cap == 0) by ring.
  rewrite E. reflexivity.
Qed.

(** The theorem at service 35, accrual 1, 10 years and cap 40. *)
Lemma project_service_hits_cap_witness :
  project_service 35 1 10 40 = 40
  /\ service_hit_cap (project_service 35 1 10 40) 40 = true.
Proof.
  apply (project_service_hits_cap 35 1 10 40). reflexivity.
Defined.

(** In the single scenario, service accrued beyond the cap is reported among
    the issues. *)
Lemma issues_report_capped_service (inp : Inputs) :
  max_service_cap inp
  < current_service inp + annual_service_accrual inp * inject_Z (years_to_retirement inp) ->
  exists p,
    calculations inp = Ok p
    /\ service_at_retirement p = max_service_cap inp
    /\ In "Service hit the cap. Consider raising the cap or revising accrual."%string
          (issues inp p).
Proof.
  intros Hover.
  assert (E := calculations_at_value inp _ (years_to_retirement_nonneg inp)).
  cbv zeta in E. eexists. split; [exact E |].
  cbn [service_at_retirement].
  unfold project_service. rewrite (min_above _ _ Hover).
  split; [reflexivity |].
  unfold issues. cbn [service_at_retirement].
  apply in_or_app. right. apply in_or_app. left.
  unfold service_hit_cap.
  assert (Hlt : Py.lt (Qabs (max_service_cap inp - max_service_cap inp)) tolerance = true).
  { apply lt_true_iff.
    assert (Ez : max_service_cap inp - max_service_cap inp == 0) by ring.
    rewrite Ez. reflexivity. }
  rewrite Hlt. now left.
Qed.

(** ** Benefit Calculator *)


(** ** Growth Projector *)

(** C7: the salary projector and the threshold projector are one function:
    they agree on every argument, and each is [base * (1 + growth_pct/100) ^ years],
    failing only where Python's power does (zero base of the power, negative
    exponent). *)
Theorem project_final_salary_is_sft_at_year (base growth_pct : Q) (years : Z) :
  project_final_salary base growth_pct years = sft_at_year base growth_pct years
  /\ project_final_salary base growth_pct years
     = if (years <? 0)%Z && Qeq_bool (1 + growth_pct / 100) 0
       then Raise ZeroDivisionError
       else Ok (base * (1 + growth_pct / 100) ^ years).
Proof.
  split; [reflexivity |].
  unfold project_final_salary, pow.
  now destruct ((years <? 0)%Z && Qeq_bool (1 + growth_pct / 100) 0).
Qed.

(** C6: for a non-negative base and growth percentage and [0 <= years1 < years2],
    both projectors return a value at [years1] and at [years2], and the value
    at [years1] is not above the value at [years2]. *)
Theorem project_growth_monotone (base growth_pct : Q) (years1 years2 : Z)
  (Hbase : 0 <= base) (Hgrowth : 0 <= growth_pct)
  (Hyears : (0 <= years1 < years2)%Z) :
  (exists v1 v2,
      project_final_salary base growth_pct years1 = Ok v1
      /\ project_final_salary base growth_pct years2 = Ok v2
      /\ v1 <= v2)
  /\ (exists t1 t2,
      sft_at_year base growth_pct years1 = Ok t1
      /\ sft_at_year base growth_pct years2 = Ok t2
      /\ t1 <= t2).
Proof.
  assert (H1 : (0 <= years1)%Z) by lia.
  assert (H2 : (0 <= years2)%Z) by lia.
  assert (Hle : base * (1 + growth_pct / 100) ^ years1
                <= base * (1 + growth_pct / 100) ^ years2).
  { rewrite !(Qmult_comm base). apply Qmult_le_compat_r; [| assumption].
    apply growth_factor_monotone; [assumption | lia]. }
  split; do 2 eexists.
  - rewrite !project_final_salary_value by assumption. repeat split. exact Hle.
  - rewrite !sft_at_year_value by assumption. repeat split. exact Hle.
Qed.

(** The theorem for a salary of 100000 growing by 2% over 5 and 10 years. *)
Lemma project_growth_monotone_witness :
  (exists v1 v2,
      project_final_salary 100000 2 5 = Ok v1
      /\ project_final_salary 100000 2 10 = Ok v2
      /\ v1 <= v2)
  /\ (exists t1 t2,
      sft_at_year 100000 2 5 = Ok t1
      /\ sft_at_year 100000 2 10 = Ok t2
      /\ t1 <= t2).
Proof.
  apply (project_growth_monotone 100000 2 5 10); [discriminate | discriminate | lia].
Defined.

(** In the calculations block, the final salary and the threshold do not
    decrease when the years to retirement grow. *)
Lemma calculations_monotone_in_years (inp : Inputs) (years1 years2 : Z) :
  0 <= current_salary inp -> 0 <= salary_growth_pct inp ->
  0 <= sft_now inp -> 0 <= sft_growth_pct inp ->
  (0 <= years1 <= years2)%Z ->
  exists p1 p2,
    calculations_at inp years1 = Ok p1
    /\ calculations_at inp years2 = Ok p2
    /\ final_salary p1 <= final_salary p2
    /\ sft_threshold_future p1 <= sft_threshold_future p2.
Proof.
  intros Hs Hg Ht Htg Hy.
  assert (E1 := calculations_at_value inp years1 ltac:(lia)).
  assert (E2 := calculations_at_value inp years2 ltac:(lia)).
  cbv zeta in E1, E2.
  do 2 eexists. split; [exact E1 |]. split; [exact E2 |].
  cbn [final_salary sft_threshold_future]. split.
  - rewrite !(Qmult_comm (current_salary inp)). apply Qmult_le_compat_r; [| assumption].
    apply growth_factor_monotone; [assumption | lia].
  - rewrite !(Qmult_comm (sft_now inp)). apply Qmult_le_compat_r; [| assumption].
    apply growth_factor_monotone; [assumption | lia].
Qed.

(** ** Scenario rows and the single-scenario calculations *)

(** The loop body always yields a row, and that row shows the results of the
    calculations block run with [max(0, age - current_age)] years. *)
Lemma scenario_row_value (inp : Inputs) (age : Z) :
  exists p,
    calculations_at inp (Z.max 0 (age - current_age inp)) = Ok p
    /\ scenario_row inp age = Ok (row_of_projection inp age p).
Proof.
  assert (Hy : (0 <= Z.max 0 (age - current_age inp))%Z) by lia.
  assert (E := calculations_at_value inp _ Hy). cbv zeta in E.
  eexists. split; [exact E |].
  unfold scenario_row, row_of_projection, over_threshold.
  rewrite max0_is_max.
  rewrite (project_final_salary_value _ _ _ Hy), (sft_at_year_value _ _ _ Hy).
  reflexivity.
Qed.

(** ** Valuation and Threshold Comparator *)

(** C4: in the calculations block, the valuation is
    [annual_pension * valuation_factor + lump_sum], the threshold is the value
    of the threshold projector at the same number of years, and the valuation
    counts as over the threshold exactly when it is strictly greater: on
    equality the banner is the "within" one.  The "Over SFT?" cell of a
    scenario row is decided by the same comparison. *)
Theorem sft_comparison (inp : Inputs) (years : Z) (Hyears : (0 <= years)%Z) :
  exists p,
    calculations_at inp years = Ok p
    /\ sft_value p = annual_pension p * valuation_factor inp + lump_sum p
    /\ sft_at_year (sft_now inp) (sft_growth_pct inp) years
       = Ok (sft_threshold_future p)
    /\ (over_threshold p = true <-> sft_threshold_future p < sft_value p)
    /\ (sft_value p == sft_threshold_future p -> over_threshold p = false)
    /\ sft_banner p
       = (if over_threshold p
          then error "⚠️ Over the SFT threshold based on current assumptions."
          else success "✅ Within SFT threshold under current assumptions.")
    /\ (forall age, years = Z.max 0 (age - current_age inp) ->
        exists r, scenario_row inp age = Ok r
                  /\ get "Over SFT?" r
                     = Some (Str (if over_threshold p then "Yes" else "No"))).
Proof.
  assert (E := calculations_at_value inp years Hyears). cbv zeta in E.
  eexists. split; [exact E |].
  cbn [sft_value annual_pension lump_sum sft_threshold_future].
  split; [reflexivity |].
  split; [now apply sft_at_year_value |].
  split; [apply gt_true_iff |].
  split.
  - intros Heq. apply gt_false_iff. cbn [sft_value sft_threshold_future].
    rewrite Heq. apply Qle_refl.
  - split; [reflexivity |].
    intros age ->. destruct (scenario_row_value inp age) as [p [Hp Hr]].
    rewrite E in Hp. injection Hp as <-.
    eexists. split; [exact Hr | reflexivity].
Qed.

(** The theorem for the default sidebar values, ten years ahead. *)
Lemma sft_comparison_witness :
  let inp := mkInputs 2025 55 100000 2 20 (ByAge 65) 1 40 20 2000000 0 in
  exists p,
    calculations_at inp 10 = Ok p
    /\ sft_value p = annual_pension p * valuation_factor inp + lump_sum p
    /\ sft_at_year (sft_now inp) (sft_growth_pct inp) 10
       = Ok (sft_threshold_future p)
    /\ (over_threshold p = true <-> sft_threshold_future p < sft_value p)
    /\ (sft_value p == sft_threshold_future p -> over_threshold p = false)
    /\ sft_banner p
       = (if over_threshold p
          then error "⚠️ Over the SFT threshold based on current assumptions."
          else success "✅ Within SFT threshold under current assumptions.")
    /\ (forall age, 10%Z = Z.max 0 (age - current_age inp) ->
        exists r, scenario_row inp age = Ok r
                  /\ get "Over SFT?" r
                     = Some (Str (if over_threshold p then "Yes" else "No"))).
Proof.
  apply (sft_comparison (mkInputs 2025 55 100000 2 20 (ByAge 65) 1 40 20 2000000 0) 10).
  lia.
Defined.

(** ** Sign and scaling of the monetary outputs *)

(** C9: for non-negative salary, service, growth percentages and accrual, a
    positive cap, capitalisation factor and current threshold, and a
    non-negative number of years, the calculations block returns, and the
    final salary, annual pension, lump sum, valuation and threshold are all
    non-negative. *)
Theorem monetary_outputs_nonneg (inp : Inputs) (years : Z)
  (Hsalary : 0 <= current_salary inp)
  (Hservice : 0 <= current_service inp)
  (Hsalary_growth : 0 <= salary_growth_pct inp)
  (Hsft_growth : 0 <= sft_growth_pct inp)
  (Haccrual : 0 <= annual_service_accrual inp)
  (Hcap : 0 < max_service_cap inp)
  (Hfactor : 0 < valuation_factor inp)
  (Hsft : 0 < sft_now inp)
  (Hyears : (0 <= years)%Z) :
  exists p,
    calculations_at inp years = Ok p
    /\ 0 <= final_salary p
    /\ 0 <= annual_pension p
    /\ 0 <= lump_sum p
    /\ 0 <= sft_value p
    /\ 0 <= sft_threshold_future p.
Proof.
  assert (E := calculations_at_value inp years Hyears). cbv zeta in E.
  eexists. split; [exact E |].
  cbn [final_salary annual_pension lump_sum sft_value sft_threshold_future].
  set (fs := current_salary inp * (1 + salary_growth_pct inp / 100) ^ years).
  set (svc := project_service _ _ _ _).
  assert (Hfs : 0 <= fs).
  { apply Qmult_le_0_compat; [assumption | now apply growth_factor_nonneg]. }
  assert (Hsvc : 0 <= svc).
  { apply min_nonneg; [| now apply Qlt_le_weak].
    assert (0 <= annual_service_accrual inp * inject_Z years).
    { apply Qmult_le_0_compat; [assumption |].
      change 0 with (inject_Z 0). now rewrite <- Zle_Qle. }
    lra. }
  assert (Hpen : 0 <= fs * (svc / 80)).
  { apply Qmult_le_0_compat; [assumption |].
    apply Qmult_le_0_compat; [assumption | discriminate]. }
  assert (Hls : 0 <= fs * (svc / 30)).
  { apply Qmult_le_0_compat; [assumption |].
    apply Qmult_le_0_compat; [assumption | discriminate]. }
  repeat split; try assumption.
  - assert (0 <= fs * (svc / 80) * valuation_factor inp)
      by (apply Qmult_le_0_compat; [assumption | now apply Qlt_le_weak]).
    lra.
  - apply Qmult_le_0_compat; [now apply Qlt_le_weak | now apply growth_factor_nonneg].
Qed.

(** The theorem for the default sidebar values, ten years ahead. *)
Lemma monetary_outputs_nonneg_witness :
  exists p,
    calculations_at (mkInputs 2025 55 100000 2 20 (ByAge 65) 1 40 20 2000000 0) 10
    = Ok p
    /\ 0 <= final_salary p
    /\ 0 <= annual_pension p
    /\ 0 <= lump_sum p
    /\ 0 <= sft_value p
    /\ 0 <= sft_threshold_future p.
Proof.
  apply (monetary_outputs_nonneg
           (mkInputs 2025 55 100000 2 20 (ByAge 65) 1 40 20 2000000 0) 10);
    cbn; solve [discriminate | reflexivity | lia].
Defined.

(** In exact arithmetic the calculations block is linear in the salary:
    multiplying the current salary by [c] multiplies the final salary, the
    annual pension, the lump sum and the valuation by [c], and leaves the
    service at retirement and the threshold as they were. *)
Lemma calculations_linear_in_salary (inp : Inputs) (c : Q) (years : Z)
  (Hyears : (0 <= years)%Z) :
  exists p p',
    calculations_at inp years = Ok p
    /\ calculations_at (with_salary inp (c * current_salary inp)) years = Ok p'
    /\ final_salary p' == c * final_salary p
    /\ annual_pension p' == c * annual_pension p
    /\ lump_sum p' == c * lump_sum p
    /\ sft_value p' == c * sft_value p
    /\ service_at_retirement p' = service_at_retirement p
    /\ sft_threshold_future p' = sft_threshold_future p.
Proof.
  assert (E := calculations_at_value inp years Hyears).
  assert (E' := calculations_at_value (with_salary inp (c * current_salary inp))
                  years Hyears).
  cbv zeta in E, E'. cbn [with_salary current_salary salary_growth_pct
    current_service annual_service_accrual max_service_cap valuation_factor
    sft_now sft_growth_pct] in E'.
  do 2 eexists. split; [exact E |]. split; [exact E' |].
  cbn [final_salary annual_pension lump_sum sft_value service_at_retirement
       sft_threshold_future].
  repeat split; field.
Qed.

(** In double precision the service at retirement and the threshold do not
    depend on the salary, and neither does the exception when one is raised. *)
Lemma float_salary_leaves_service_and_threshold
  (libm_pow : float -> float -> float) (inp : Float64.Inputs) (salary : float)
  (years : Z) :
  match Float64.calculations_at libm_pow inp years,
        Float64.calculations_at libm_pow (Float64.with_salary inp salary) years with
  | Ok q, Ok q' =>
      Float64.service_at_retirement q' = Float64.service_at_retirement q
      /\ Float64.sft_threshold_future q' = Float64.sft_threshold_future q
  | Raise e, Raise e' => e = e'
  | _, _ => False
  end.
Proof.
  unfold Float64.calculations_at, Float64.project_final_salary, Float64.sft_at_year.
  cbn [Float64.with_salary Float64.current_salary Float64.salary_growth_pct
       Float64.current_service Float64.annual_service_accrual
       Float64.max_service_cap Float64.valuation_factor Float64.sft_now
       Float64.sft_growth_pct].
  destruct (Float64.pow libm_pow (1 + Float64.salary_growth_pct inp / 100) years);
    cbn [bind Float64.classic_db_pension]; [| reflexivity].
  destruct (Float64.pow libm_pow (1 + Float64.sft_growth_pct inp / 100) years);
    cbn [bind]; [| reflexivity].
  split; reflexivity.
Qed.

#[local] Set Warnings "-inexact-float".

(** C10 (as the code has it): multiplying the current salary by [c]
    multiplies the final salary, the annual pension, the lump sum and the
    valuation by [c] in exact arithmetic, the formulas being linear in the
    salary; in the double precision of the program the service at retirement
    and the threshold are unchanged whatever the salary is replaced by. *)
Theorem salary_scaling_exact_and_in_doubles
  (inp : Inputs) (c : Q)
  (libm_pow : float -> float -> float) (finp : Float64.Inputs) (fsalary : float)
  (years : Z) (Hyears : (0 <= years)%Z) :
  (exists p p',
      calculations_at inp years = Ok p
      /\ calculations_at (with_salary inp (c * current_salary inp)) years = Ok p'
      /\ final_salary p' == c * final_salary p
      /\ annual_pension p' == c * annual_pension p
      /\ lump_sum p' == c * lump_sum p
      /\ sft_value p' == c * sft_value p
      /\ service_at_retirement p' = service_at_retirement p
      /\ sft_threshold_future p' = sft_threshold_future p)
  /\ match Float64.calculations_at libm_pow finp years,
           Float64.calculations_at libm_pow (Float64.with_salary finp fsalary) years with
     | Ok q, Ok q' =>
         Float64.service_at_retirement q' = Float64.service_at_retirement q
         /\ Float64.sft_threshold_future q' = Float64.sft_threshold_future q
     | Raise e, Raise e' => e = e'
     | _, _ => False
     end.
Proof.
  split.
  - now apply calculations_linear_in_salary.
  - apply float_salary_leaves_service_and_threshold.
Qed.

(** The theorem for a salary of 50000 tripled, 22 years of service and a
    retirement this year; with zero years the power is 1.0 and the library
    function is not called, so any function serves for it. *)
Lemma salary_scaling_exact_and_in_doubles_witness :
  let inp := mkInputs 2025 55 50000 2 22 (ByAge 55) 1 40 20 2000000 0 in
  let finp := Float64.mkInputs 50000 2 22 1 40 20 2000000 0 in
  let libm_pow := fun b _ : float => b in
  (exists p p',
      calculations_at inp 0 = Ok p
      /\ calculations_at (with_salary inp (3 * current_salary inp)) 0 = Ok p'
      /\ final_salary p' == 3 * final_salary p
      /\ annual_pension p' == 3 * annual_pension p
      /\ lump_sum p' == 3 * lump_sum p
      /\ sft_value p' == 3 * sft_value p
      /\ service_at_retirement p' = service_at_retirement p
      /\ sft_threshold_future p' = sft_threshold_future p)
  /\ match Float64.calculations_at libm_pow finp 0,
           Float64.calculations_at libm_pow (Float64.with_salary finp 150000) 0 with
     | Ok q, Ok q' =>
         Float64.service_at_retirement q' = Float64.service_at_retirement q
         /\ Float64.sft_threshold_future q' = Float64.sft_threshold_future q
     | Raise e, Raise e' => e = e'
     | _, _ => False
     end.
Proof.
  apply (salary_scaling_exact_and_in_doubles
           (mkInputs 2025 55 50000 2 22 (ByAge 55) 1 40 20 2000000 0) 3
           (fun b _ : float => b)
           (Float64.mkInputs 50000 2 22 1 40 20 2000000 0) 150000 0).
  lia.
Defined.

(** C10 as stated fails in the double precision of the program: with a
    salary of 50000, 22 years of service, a factor of 20 and a retirement
    this year, tripling the salary gives an annual pension of 41250.0 where
    three times the pension is 41250.00000000001, and the lump sum and the
    valuation differ from three times theirs as well.  With zero years the
    power is 1.0 whatever the C library computes. *)
Lemma salary_scaling_not_exact_in_doubles :
  let inp := Float64.mkInputs 50000 2 22 1 40 20 2000000 0 in
  exists p p',
    (forall libm_pow, Float64.calculations_at libm_pow inp 0 = Ok p)
    /\ (forall libm_pow,
          Float64.calculations_at libm_pow (Float64.with_salary inp (3 * 50000)) 0
          = Ok p')
    /\ Float64.final_salary p' = (3 * Float64.final_salary p)%float
    /\ Float64.annual_pension p = 13750.000000000002%float
    /\ Float64.annual_pension p' = 41250%float
    /\ (3 * Float64.annual_pension p)%float = 41250.00000000001%float
    /\ (Float64.annual_pension p' =? 3 * Float64.annual_pension p)%float = false
    /\ Float64.lump_sum p' = 109999.99999999999%float
    /\ (3 * Float64.lump_sum p)%float = 110000%float
    /\ (Float64.lump_sum p' =? 3 * Float64.lump_sum p)%float = false
    /\ Float64.sft_value p' = 935000%float
    /\ (3 * Float64.sft_value p)%float = 935000.0000000002%float
    /\ (Float64.sft_value p' =? 3 * Float64.sft_value p)%float = false.
Proof.
  cbv zeta. do 2 eexists.
  split; [intros libm_pow; vm_compute; reflexivity |].
  split; [intros libm_pow; vm_compute; reflexivity |].
  repeat split; vm_compute; reflexivity.
Qed.

(** ** Data frames: columns and sorting *)

Lemma mem_app_r (k : string) (seen extra : list string) :
  mem k seen = true -> mem k (seen ++ extra) = true.
Proof.
  unfold mem. rewrite existsb_app. intros ->. reflexivity.
Qed.

Lemma add_labels_keeps (k : string) (d : dict) :
  forall seen, mem k seen = true -> mem k (add_labels seen d) = true.
Proof.
  induction d as [| [k' v] rest IH]; intros seen H; cbn; [assumption |].
  apply IH. destruct (mem k' seen); [assumption | now apply mem_app_r].
Qed.

Lemma add_labels_adds (k : string) (d : dict) :
  forall seen, get k d <> None -> mem k (add_labels seen d) = true.
Proof.
  induction d as [| [k' v] rest IH]; intros seen H; cbn in *; [congruence |].
  destruct (String.eqb_spec k' k) as [-> | Hne].
  - apply add_labels_keeps. destruct (mem k seen) eqn:E; [assumption |].
    unfold mem. rewrite existsb_app. cbn. rewrite String.eqb_refl.
    now rewrite orb_true_r.
  - now apply IH.
Qed.

Lemma fold_add_labels_keeps (k : string) (rows : list dict) :
  forall seen, mem k seen = true -> mem k (fold_left add_labels rows seen) = true.
Proof.
  induction rows as [| r rest IH]; intros seen H; cbn; [assumption |].
  apply IH. now apply add_labels_keeps.
Qed.

(** A key of the first record is a column of the frame. *)
Lemma of_records_has_column (k : string) (r : dict) (rest : list dict) :
  get k r <> None -> mem k (columns (of_records (r :: rest))) = true.
Proof.
  intros H. cbn. apply fold_add_labels_keeps. now apply add_labels_adds.
Qed.

Lemma insert_by_perm (col : string) (d : dict) (l : list dict) :
  Permutation (d :: l) (insert_by col d l).
Proof.
  induction l as [| e rest IH]; cbn; [apply Permutation_refl |].
  destruct (key_of col d <=? key_of col e)%Z.
  - apply Permutation_refl.
  - eapply perm_trans; [apply perm_swap |]. now apply perm_skip.
Qed.

Lemma sort_by_perm (col : string) (l : list dict) : Permutation l (sort_by col l).
Proof.
  induction l as [| d rest IH]; cbn; [constructor |].
  eapply perm_trans; [| apply insert_by_perm]. now apply perm_skip.
Qed.

Lemma insert_by_sorted (col : string) (d : dict) (l : list dict) :
  StronglySorted (fun a b => (key_of col a <= key_of col b)%Z) l ->
  StronglySorted (fun a b => (key_of col a <= key_of col b)%Z) (insert_by col d l).
Proof.
  induction 1 as [| e rest Hs IH Hall]; cbn.
  - repeat constructor.
  - destruct (Z.leb_spec (key_of col d) (key_of col e)) as [Hle | Hgt].
    + constructor; [now constructor |].
      constructor; [assumption |].
      eapply Forall_impl; [| exact Hall]. cbn. intros; lia.
    + constructor; [assumption |].
      eapply Permutation_Forall; [apply insert_by_perm |].
      constructor; [lia | assumption].
Qed.

Lemma sort_by_sorted (col : string) (l : list dict) :
  StronglySorted (fun a b => (key_of col a <= key_of col b)%Z) (sort_by col l).
Proof.
  induction l as [| d rest IH]; cbn; [constructor |].
  now apply insert_by_sorted.
Qed.

(** Two ascending arrangements of the same records coincide when records with
    equal keys are equal: the order of the sorted table does not depend on
    how the sorting routine treats ties. *)
Lemma sorted_arrangement_unique (col : string) (l1 : list dict) :
  forall l2,
    (forall a b, In a l1 -> In b l1 -> key_of col a = key_of col b -> a = b) ->
    Permutation l1 l2 ->
    StronglySorted (fun a b => (key_of col a <= key_of col b)%Z) l1 ->
    StronglySorted (fun a b => (key_of col a <= key_of col b)%Z) l2 ->
    l1 = l2.
Proof.
  induction l1 as [| a l1' IH]; intros l2 Hinj Hperm Hs1 Hs2.
  - apply Permutation_nil in Hperm. now subst.
  - destruct l2 as [| b l2'].
    + apply Permutation_sym, Permutation_nil in Hperm. discriminate.
    + inversion Hs1 as [| ? ? Hs1' Ha]; subst.
      inversion Hs2 as [| ? ? Hs2' Hb]; subst.
      assert (Hab : a = b).
      { assert (Hb_in : In b (a :: l1')).
        { eapply Permutation_in; [apply Permutation_sym; exact Hperm | now left]. }
        assert (Ha_in : In a (b :: l2')).
        { eapply Permutation_in; [exact Hperm | now left]. }
        destruct Hb_in as [-> | Hb_in]; [reflexivity |].
        destruct Ha_in as [-> | Ha_in]; [reflexivity |].
        apply Hinj; [now left | now right |].
        rewrite Forall_forall in Ha, Hb.
        specialize (Ha _ Hb_in). specialize (Hb _ Ha_in). lia. }
      subst b. f_equal.
      apply IH; try assumption.
      * intros x y Hx Hy. apply Hinj; now right.
      * eapply Permutation_cons_inv; exact Hperm.
Qed.

(** ** Scenario Sweeper *)

Lemma is_row_for_age (inp : Inputs) (age : Z) (r : dict) :
  is_row_for inp age r -> get "Ret Age" r = Some (Int age) /\ ret_age r = age.
Proof.
  intros [p [_ ->]]. split; reflexivity.
Qed.

Lemma is_row_for_unique (inp : Inputs) (age : Z) (r1 r2 : dict) :
  is_row_for inp age r1 -> is_row_for inp age r2 -> r1 = r2.
Proof.
  intros [p1 [H1 ->]] [p2 [H2 ->]]. rewrite H1 in H2. now injection H2 as ->.
Qed.

(** The loop never raises: it appends one row per age, in the order of the
    ages, to the rows it started from. *)
Lemma scenario_loop_value (inp : Inputs) (ages : list Z) :
  forall rows, exists added,
    scenario_loop inp ages rows = Ok (rows ++ added)
    /\ Forall2 (is_row_for inp) ages added.
Proof.
  induction ages as [| age rest IH]; intros rows; cbn.
  - exists []. rewrite app_nil_r. split; [reflexivity | constructor].
  - destruct (scenario_row_value inp age) as [p [Hp Hr]].
    rewrite Hr. cbn.
    destruct (IH (rows ++ [row_of_projection inp age p])) as [added [Hl Hf]].
    exists (row_of_projection inp age p :: added).
    rewrite Hl, <- app_assoc. split; [reflexivity |].
    constructor; [| assumption]. now exists p.
Qed.

Lemma rows_have_int_age (inp : Inputs) (ages : list Z) (rows : list dict) :
  Forall2 (is_row_for inp) ages rows ->
  forallb (fun d => match int_key "Ret Age" d with Some _ => true | None => false end)
          rows = true.
Proof.
  induction 1 as [| age r ages' rows' Hr _ IH]; cbn; [reflexivity |].
  destruct Hr as [p [_ ->]]. cbn. exact IH.
Qed.

Lemma rows_ages (inp : Inputs) (ages : list Z) (rows : list dict) :
  Forall2 (is_row_for inp) ages rows -> map ret_age rows = ages.
Proof.
  induction 1 as [| age r ages' rows' Hr _ IH]; cbn; [reflexivity |].
  destruct (is_row_for_age _ _ _ Hr) as [_ ->]. now rewrite IH.
Qed.

(** For a non-empty selection the table is the ascending arrangement of the
    rows of the loop. *)
Lemma scenarios_nonempty (inp : Inputs) (age : Z) (rest : list Z) (rows : list dict) :
  scenario_loop inp (age :: rest) [] = Ok rows ->
  Forall2 (is_row_for inp) (age :: rest) rows ->
  scenarios inp (age :: rest)
  = Ok {| columns := columns (of_records rows); records := sort_by "Ret Age" rows |}.
Proof.
  intros Hl Hf. unfold scenarios. rewrite Hl. cbn [bind].
  unfold sort_values. cbn [records of_records].
  rewrite (rows_have_int_age _ _ _ Hf).
  inversion Hf as [| ? r ? rows' Hr Hf']; subst.
  rewrite of_records_has_column; [reflexivity |].
  destruct (is_row_for_age _ _ _ Hr) as [-> _]. discriminate.
Qed.

(** C2: with no age selected the loop leaves [rows] empty, but building the
    table then raises [KeyError] on the sort column instead of giving an empty
    table; with a single age [A] the table has exactly one row, whose
    retirement age is [A]. *)
Theorem scenarios_empty_and_singleton (inp : Inputs) :
  scenario_loop inp [] [] = Ok []
  /\ scenarios inp [] = Raise (KeyError "Ret Age")
  /\ (forall A, exists df r,
        scenarios inp [A] = Ok df
        /\ records df = [r]
        /\ get "Ret Age" r = Some (Int A)).
Proof.
  split; [reflexivity |]. split; [reflexivity |].
  intros A.
  destruct (scenario_loop_value inp [A] []) as [rows [Hl Hf]].
  cbn [app] in Hl.
  rewrite (scenarios_nonempty _ _ _ _ Hl Hf).
  inversion Hf as [| ? r ? rows' Hr Hf']; subst.
  inversion Hf'; subst.
  do 2 eexists. split; [reflexivity |]. split; [reflexivity |].
  now destruct (is_row_for_age _ _ _ Hr).
Qed.

(** C3: for every list of ages the loop appends exactly one row per age, in
    the order of the ages and duplicates included, each row showing the
    single-scenario calculations run with [max(0, age - current_age)] years
    and the retirement year [current_year + years].  For a non-empty list the
    table holds these same rows in ascending order of retirement age; for the
    empty list building the table raises [KeyError]. *)
Theorem scenarios_one_row_per_age_sorted (inp : Inputs) (ages : list Z) :
  exists rows,
    scenario_loop inp ages [] = Ok rows
    /\ Forall2 (is_row_for inp) ages rows
    /\ List.length rows = List.length ages
    /\ match ages with
       | [] => scenarios inp ages = Raise (KeyError "Ret Age")
       | _ :: _ =>
           exists df,
             scenarios inp ages = Ok df
             /\ Permutation rows (records df)
             /\ Permutation ages (map ret_age (records df))
             /\ StronglySorted Z.le (map ret_age (records df))
       end.
Proof.
  destruct (scenario_loop_value inp ages []) as [rows [Hl Hf]].
  cbn [app] in Hl. exists rows.
  split; [exact Hl |]. split; [exact Hf |].
  split; [symmetry; eapply Forall2_length; exact Hf |].
  destruct ages as [| age rest]; [reflexivity |].
  eexists. split; [apply (scenarios_nonempty _ _ _ _ Hl Hf) |].
  cbn [records]. split; [apply sort_by_perm |]. split.
  - rewrite <- (rows_ages _ _ _ Hf) at 1.
    apply Permutation_map, sort_by_perm.
  - assert (Hs := sort_by_sorted "Ret Age" rows).
    induction Hs as [| r l _ IH Hall]; cbn; constructor; [exact IH |].
    rewrite Forall_map. exact Hall.
Qed.

(** X18: any ascending arrangement of the rows of the loop is the table itself:
    rows of equal retirement age are equal, so the table does not depend on
    the order in which the sorting routine leaves ties. *)
Lemma scenarios_table_is_forced (inp : Inputs) (ages : list Z) (rows table : list dict) :
  scenario_loop inp ages [] = Ok rows ->
  Permutation rows table ->
  StronglySorted (fun a b => (ret_age a <= ret_age b)%Z) table ->
  table = sort_by "Ret Age" rows.
Proof.
  intros Hl Hperm Hsorted.
  destruct (scenario_loop_value inp ages []) as [rows' [Hl' Hf]].
  cbn [app] in Hl'. rewrite Hl in Hl'. injection Hl' as <-.
  symmetry. apply sorted_arrangement_unique with (col := "Ret Age"%string).
  - assert (Hrow : forall r, In r rows -> is_row_for inp (ret_age r) r).
    { clear - Hf. induction Hf as [| age r ages' rows' Hr _ IH]; intros x [].
      - subst x. now destruct (is_row_for_age _ _ _ Hr) as [_ ->].
      - now apply IH. }
    intros a b Ha Hb Hk.
    assert (Ha' : In a rows).
    { eapply Permutation_in; [apply Permutation_sym, sort_by_perm | exact Ha]. }
    assert (Hb' : In b rows).
    { eapply Permutation_in; [apply Permutation_sym, sort_by_perm | exact Hb]. }
    apply (is_row_for_unique inp (ret_age a)); [now apply Hrow |].
    unfold ret_age at 1. rewrite Hk. now apply Hrow.
  - eapply perm_trans; [apply Permutation_sym, sort_by_perm | exact Hperm].
  - apply sort_by_sorted.
  - exact Hsorted.
Qed.


(** * Further properties of the page *)

(** ** Retirement target *)

(** Offsets of the retirement target, for use in other proofs. *)
Lemma target_offsets_agree_aux (inp : Inputs) :
  (0 <= years_to_retirement inp)%Z
  /\ (target_in_past inp = false ->
      (retirement_age inp - current_age inp = years_to_retirement inp)%Z
      /\ (retirement_year inp - current_year inp = years_to_retirement inp)%Z).
Proof.
  unfold target_in_past, retirement_age, retirement_year, years_to_retirement.
  destruct (target_mode inp) as [a | y]; rewrite !max0_is_max;
    (split; [lia |]); intros H; apply Z.ltb_ge in H; lia.
Qed.

(** X1: the years to retirement are never negative.  When the target is not
    in the past, the age offset and the year offset both equal the years to
    retirement; when it is in the past, the years are clamped to zero and the
    derived quantity (the year in age mode, the age in year mode) is the
    current one. *)
Theorem target_offsets_agree (inp : Inputs) :
  (0 <= years_to_retirement inp)%Z
  /\ (target_in_past inp = false ->
      (retirement_age inp - current_age inp = years_to_retirement inp)%Z
      /\ (retirement_year inp - current_year inp = years_to_retirement inp)%Z)
  /\ (target_in_past inp = true ->
      years_to_retirement inp = 0%Z
      /\ match target_mode inp with
         | ByAge _ => retirement_year inp = current_year inp
         | ByYear _ => retirement_age inp = current_age inp
         end).
Proof.
  unfold target_in_past, retirement_age, retirement_year, years_to_retirement.
  destruct (target_mode inp) as [a | y]; rewrite !max0_is_max;
    (split; [lia |]); split; intros H;
    first [apply Z.ltb_ge in H | apply Z.ltb_lt in H]; lia.
Qed.

(** ** Checks *)

Lemma issues_this_year_iff (inp : Inputs) (p : Projection) :
  In retirement_this_year_msg (issues inp p) <-> years_to_retirement inp = 0%Z.
Proof.
  unfold issues.
  destruct (Z.eqb_spec (years_to_retirement inp) 0) as [E | E];
    destruct (service_hit_cap _ _);
    destruct (retirement_age inp <? current_age inp)%Z; cbn;
    split; intros H; try assumption; try (now left);
    repeat (destruct H as [H | H]; try discriminate H); try contradiction.
Qed.

Lemma issues_hit_cap_iff (inp : Inputs) (p : Projection) :
  In service_hit_cap_msg (issues inp p)
  <-> service_hit_cap (service_at_retirement p) (max_service_cap inp) = true.
Proof.
  unfold issues.
  destruct (years_to_retirement inp =? 0)%Z;
    destruct (service_hit_cap _ _);
    destruct (retirement_age inp <? current_age inp)%Z; cbn;
    split; intros H; try reflexivity; try discriminate H; auto;
    repeat (destruct H as [H | H]; try discriminate H); try contradiction.
Qed.

Lemma issues_before_now_iff (inp : Inputs) (p : Projection) :
  In retirement_before_now_msg (issues inp p)
  <-> (retirement_age inp < current_age inp)%Z.
Proof.
  unfold issues.
  destruct (years_to_retirement inp =? 0)%Z;
    destruct (service_hit_cap _ _);
    destruct (Z.ltb_spec (retirement_age inp) (current_age inp)) as [E | E]; cbn;
    split; intros H; try assumption; auto;
    repeat (destruct H as [H | H]; try discriminate H); try contradiction; lia.
Qed.

(** A retirement age below the current age can only come from the age
    target, and it clamps the years to zero. *)
Lemma before_now_is_clamped (inp : Inputs) :
  (retirement_age inp < current_age inp)%Z ->
  years_to_retirement inp = 0%Z
  /\ exists a, target_mode inp = ByAge a /\ (a < current_age inp)%Z.
Proof.
  unfold retirement_age, years_to_retirement.
  destruct (target_mode inp) as [a | y]; rewrite max0_is_max; intros H.
  - split; [lia |]. exists a. split; [reflexivity | assumption].
  - lia.
Qed.

(** The cap check in terms of the accrued service: it holds exactly when the
    accrued service is above the cap less the tolerance. *)
Lemma service_hit_cap_iff (x cap : Q) :
  service_hit_cap (Py.min x cap) cap = true <-> cap - tolerance < x.
Proof.
  unfold service_hit_cap. rewrite lt_true_iff, Qabs_Qlt_condition.
  assert (Htol : 0 < tolerance) by reflexivity.
  destruct (Qlt_le_dec cap x) as [H | H].
  - rewrite (min_above _ _ H). split; intros; [lra | split; lra].
  - rewrite (min_within _ _ H). split; intros; [lra | split; lra].
Qed.

(** X2: the warning that the retirement age is below the current age never
    comes alone: it appears only with an age target below the current age,
    and then the years to retirement are zero and the "retirement is this
    year" warning is issued as well. *)
Theorem before_now_warning_implies_this_year (inp : Inputs) (p : Projection)
  (Hwarn : In retirement_before_now_msg (issues inp p)) :
  In retirement_this_year_msg (issues inp p)
  /\ years_to_retirement inp = 0%Z
  /\ exists a, target_mode inp = ByAge a /\ (a < current_age inp)%Z.
Proof.
  apply issues_before_now_iff, before_now_is_clamped in Hwarn.
  destruct Hwarn as [Hy Ha].
  split; [now apply issues_this_year_iff |]. split; assumption.
Qed.

(** The theorem at current age 60 with a desired retirement age of 55. *)
Lemma before_now_warning_implies_this_year_witness :
  let inp := mkInputs 2025 60 100000 2 20 (ByAge 55) 1 40 20 2000000 0 in
  let p := mkProjection 100000 20 25000 (200000 # 3) (1700000 # 3) 2000000 in
  In retirement_this_year_msg (issues inp p)
  /\ years_to_retirement inp = 0%Z
  /\ exists a, target_mode inp = ByAge a /\ (a < current_age inp)%Z.
Proof.
  apply (before_now_warning_implies_this_year
           (mkInputs 2025 60 100000 2 20 (ByAge 55) 1 40 20 2000000 0)
           (mkProjection 100000 20 25000 (200000 # 3) (1700000 # 3) 2000000)).
  vm_compute. right. left. reflexivity.
Defined.

(** X3: in the single scenario the "service hit the cap" warning is issued
    exactly when the accrued service is above the cap less the tolerance of
    1e-9: it covers service that reaches the cap without exceeding it. *)
Theorem cap_warning_iff (inp : Inputs) :
  exists p,
    calculations inp = Ok p
    /\ (In service_hit_cap_msg (issues inp p)
        <-> max_service_cap inp - tolerance
            < accrued_service inp (years_to_retirement inp)).
Proof.
  assert (E := calculations_at_value inp _ (years_to_retirement_nonneg inp)).
  cbv zeta in E. eexists. split; [exact E |].
  rewrite issues_hit_cap_iff. cbn [service_at_retirement].
  apply service_hit_cap_iff.
Qed.

(** X4: the single scenario raises no warning exactly when the years to
    retirement are positive and the accrued service is at most the cap less
    the tolerance; the check on the retirement age adds nothing to these. *)
Theorem no_issues_iff (inp : Inputs) :
  exists p,
    calculations inp = Ok p
    /\ (issues inp p = []
        <-> (0 < years_to_retirement inp)%Z
            /\ accrued_service inp (years_to_retirement inp)
               <= max_service_cap inp - tolerance).
Proof.
  assert (E := calculations_at_value inp _ (years_to_retirement_nonneg inp)).
  cbv zeta in E. eexists. split; [exact E |].
  match goal with |- issues inp ?q = [] <-> _ => set (p := q) end.
  assert (H1 := issues_this_year_iff inp p).
  assert (H2 := issues_hit_cap_iff inp p).
  assert (H3 := issues_before_now_iff inp p).
  assert (Hcap := service_hit_cap_iff
                    (accrued_service inp (years_to_retirement inp))
                    (max_service_cap inp)).
  assert (Hy := years_to_retirement_nonneg inp).
  change (service_hit_cap (service_at_retirement p) (max_service_cap inp))
    with (service_hit_cap
            (Py.min (accrued_service inp (years_to_retirement inp))
                    (max_service_cap inp)) (max_service_cap inp)) in H2.
  split.
  - intros Hnil. rewrite Hnil in H1, H2. cbn in H1, H2. split.
    + destruct (Z.eq_dec (years_to_retirement inp) 0) as [Hz | Hz]; [| lia].
      exfalso. now apply H1.
    + apply Qnot_lt_le. intros Hlt. apply Hcap in Hlt. now apply H2.
  - intros [Hpos Hle].
    destruct (issues inp p) as [| m rest] eqn:Hi; [reflexivity |]. exfalso.
    assert (Hm : In m (issues inp p)) by (rewrite Hi; now left).
    unfold issues in Hm. apply in_app_or in Hm. destruct Hm as [Hm | Hm].
    { destruct (Z.eqb_spec (years_to_retirement inp) 0); [lia | contradiction]. }
    apply in_app_or in Hm. destruct Hm as [Hm | Hm].
    { destruct (service_hit_cap (service_at_retirement p) (max_service_cap inp)) eqn:Hc;
        [| contradiction].
      change (service_hit_cap (service_at_retirement p) (max_service_cap inp))
        with (service_hit_cap
                (Py.min (accrued_service inp (years_to_retirement inp))
                        (max_service_cap inp)) (max_service_cap inp)) in Hc.
      apply Hcap in Hc. apply (Qlt_not_le _ _ Hc). exact Hle. }
    destruct (Z.ltb_spec (retirement_age inp) (current_age inp)) as [Hlt | Hge];
      [| contradiction].
    apply before_now_is_clamped in Hlt. lia.
Qed.

(** ** Service and growth projectors *)

Lemma min_monotone (x y cap : Q) : x <= y -> Py.min x cap <= Py.min y cap.
Proof.
  intros H.
  destruct (Qlt_le_dec cap x) as [Hx | Hx]; destruct (Qlt_le_dec cap y) as [Hy | Hy].
  - rewrite (min_above _ _ Hx), (min_above _ _ Hy). apply Qle_refl.
  - lra.
  - rewrite (min_within _ _ Hx), (min_above _ _ Hy). exact Hx.
  - rewrite (min_within _ _ Hx), (min_within _ _ Hy). exact H.
Qed.

Lemma inject_Z_nonneg (n : Z) : (0 <= n)%Z -> 0 <= inject_Z n.
Proof.
  intros H. change 0 with (inject_Z 0). now rewrite <- Zle_Qle.
Qed.

(** The projected service as a function of the years. *)
Lemma project_service_monotone_aux (service accrual : Q) (years1 years2 : Z) (cap : Q) :
  0 <= accrual -> (years1 <= years2)%Z ->
  project_service service accrual years1 cap
  <= project_service service accrual years2 cap.
Proof.
  intros Ha Hy. unfold project_service. apply min_monotone.
  assert (H : accrual * inject_Z years1 <= accrual * inject_Z years2).
  { rewrite !(Qmult_comm accrual). apply Qmult_le_compat_r; [| assumption].
    now rewrite <- Zle_Qle. }
  lra.
Qed.

(** X5: with a non-negative accrual, the projected service does not decrease
    when the years grow, nor when the service already held grows.  The years
    may be of any sign. *)
Theorem project_service_monotone
  (service1 service2 accrual : Q) (years1 years2 : Z) (cap : Q)
  (Haccrual : 0 <= accrual)
  (Hservice : service1 <= service2)
  (Hyears : (years1 <= years2)%Z) :
  project_service service1 accrual years1 cap
  <= project_service service2 accrual years2 cap.
Proof.
  unfold project_service. apply min_monotone.
  assert (H : accrual * inject_Z years1 <= accrual * inject_Z years2).
  { rewrite !(Qmult_comm accrual). apply Qmult_le_compat_r; [| assumption].
    now rewrite <- Zle_Qle. }
  lra.
Qed.

(** The theorem for 20 and 22 years of service, 5 and 10 years ahead. *)
Lemma project_service_monotone_witness :
  project_service 20 1 5 40 <= project_service 22 1 10 40.
Proof.
  apply (project_service_monotone 20 22 1 5 10 40); [discriminate | discriminate | lia].
Defined.

(** X6: zero years leave the base as it is, whatever the growth percentage
    (also at -100%, where the factor is [0 ** 0 = 1]); a zero growth
    percentage leaves it as it is for every number of years, negative ones
    included. *)
Theorem project_growth_identity (base growth_pct : Q) (years : Z) :
  (exists v, project_final_salary base growth_pct 0 = Ok v /\ v == base)
  /\ (exists v, project_final_salary base 0 years = Ok v /\ v == base)
  /\ (exists v, sft_at_year base growth_pct 0 = Ok v /\ v == base)
  /\ (exists v, sft_at_year base 0 years = Ok v /\ v == base).
Proof.
  assert (H0 : forall b : Q, b * (1 + growth_pct / 100) ^ 0 == b).
  { intros b. cbn. ring. }
  assert (H1 : forall b : Q, pow (1 + 0 / 100) years = Ok ((1 + 0 / 100) ^ years)).
  { intros _. unfold pow.
    replace (Qeq_bool (1 + 0 / 100) 0) with false by reflexivity.
    now rewrite andb_false_r. }
  assert (H2 : forall b : Q, b * (1 + 0 / 100) ^ years == b).
  { intros b. assert (E : 1 + 0 / 100 == 1) by reflexivity.
    rewrite E, Qpower_1. ring. }
  repeat split.
  - eexists. split; [apply project_final_salary_value; lia | apply H0].
  - eexists. unfold project_final_salary. rewrite (H1 base). cbn [bind].
    split; [reflexivity | apply H2].
  - eexists. split; [apply sft_at_year_value; lia | apply H0].
  - eexists. unfold sft_at_year. rewrite (H1 base). cbn [bind].
    split; [reflexivity | apply H2].
Qed.

(** ** Benefits and valuation *)

(** The final salary and the capped service of the calculations block. *)
Lemma calculations_at_fields (inp : Inputs) (years : Z) :
  (0 <= years)%Z ->
  exists p,
    calculations_at inp years = Ok p
    /\ final_salary p = current_salary inp * (1 + salary_growth_pct inp / 100) ^ years
    /\ service_at_retirement p
       = project_service (current_service inp) (annual_service_accrual inp) years
                         (max_service_cap inp)
    /\ annual_pension p = final_salary p * (service_at_retirement p / 80)
    /\ lump_sum p = final_salary p * (service_at_retirement p / 30)
    /\ sft_value p = annual_pension p * valuation_factor inp + lump_sum p.
Proof.
  intros H. assert (E := calculations_at_value inp years H). cbv zeta in E.
  eexists. split; [exact E |]. repeat split.
Qed.

Lemma final_salary_nonneg (inp : Inputs) (years : Z) :
  0 <= current_salary inp -> 0 <= salary_growth_pct inp ->
  0 <= current_salary inp * (1 + salary_growth_pct inp / 100) ^ years.
Proof.
  intros Hs Hg. apply Qmult_le_0_compat; [assumption | now apply growth_factor_nonneg].
Qed.

Lemma Qmult_le_compat_nonneg (a b c d : Q) :
  0 <= a -> 0 <= d -> a <= b -> c <= d -> a * c <= b * d.
Proof.
  intros Ha Hd Hab Hcd.
  apply Qle_trans with (a * d).
  - rewrite !(Qmult_comm a). now apply Qmult_le_compat_r.
  - now apply Qmult_le_compat_r.
Qed.

(** X10: with a non-negative salary, growth, service, accrual, cap and
    capitalisation factor, retiring later never lowers the service, the
    annual pension, the lump sum or the valuation. *)
Theorem valuation_monotone_in_years (inp : Inputs) (years1 years2 : Z)
  (Hsalary : 0 <= current_salary inp)
  (Hgrowth : 0 <= salary_growth_pct inp)
  (Hservice : 0 <= current_service inp)
  (Haccrual : 0 <= annual_service_accrual inp)
  (Hcap : 0 <= max_service_cap inp)
  (Hfactor : 0 <= valuation_factor inp)
  (Hyears : (0 <= years1 <= years2)%Z) :
  exists p1 p2,
    calculations_at inp years1 = Ok p1
    /\ calculations_at inp years2 = Ok p2
    /\ service_at_retirement p1 <= service_at_retirement p2
    /\ annual_pension p1 <= annual_pension p2
    /\ lump_sum p1 <= lump_sum p2
    /\ sft_value p1 <= sft_value p2.
Proof.
  destruct (calculations_at_fields inp years1 ltac:(lia))
    as [p1 [E1 [Hfs1 [Hsv1 [Hpen1 [Hls1 Hval1]]]]]].
  destruct (calculations_at_fields inp years2 ltac:(lia))
    as [p2 [E2 [Hfs2 [Hsv2 [Hpen2 [Hls2 Hval2]]]]]].
  exists p1, p2. split; [exact E1 |]. split; [exact E2 |].
  assert (Hfs_pos : 0 <= final_salary p1).
  { rewrite Hfs1. now apply final_salary_nonneg. }
  assert (Hfs : final_salary p1 <= final_salary p2).
  { rewrite Hfs1, Hfs2. rewrite !(Qmult_comm (current_salary inp)).
    apply Qmult_le_compat_r; [| assumption].
    apply growth_factor_monotone; [assumption | lia]. }
  assert (Hsv : service_at_retirement p1 <= service_at_retirement p2).
  { rewrite Hsv1, Hsv2.
    apply project_service_monotone_aux; [assumption | lia]. }
  assert (Hsv_pos : 0 <= service_at_retirement p2).
  { rewrite Hsv2. unfold project_service. apply min_nonneg; [| assumption].
    assert (0 <= annual_service_accrual inp * inject_Z years2).
    { apply Qmult_le_0_compat; [assumption | apply inject_Z_nonneg; lia]. }
    lra. }
  assert (Hpen : annual_pension p1 <= annual_pension p2).
  { rewrite Hpen1, Hpen2. apply Qmult_le_compat_nonneg; try assumption.
    - unfold Qdiv. apply Qmult_le_0_compat; [assumption | discriminate].
    - unfold Qdiv. apply Qmult_le_compat_r; [assumption | discriminate]. }
  assert (Hls : lump_sum p1 <= lump_sum p2).
  { rewrite Hls1, Hls2. apply Qmult_le_compat_nonneg; try assumption.
    - unfold Qdiv. apply Qmult_le_0_compat; [assumption | discriminate].
    - unfold Qdiv. apply Qmult_le_compat_r; [assumption | discriminate]. }
  repeat split; try assumption.
  rewrite Hval1, Hval2.
  assert (annual_pension p1 * valuation_factor inp
          <= annual_pension p2 * valuation_factor inp)
    by now apply Qmult_le_compat_r.
  lra.
Qed.

(** The theorem for the default sidebar values, 5 and 10 years ahead. *)
Lemma valuation_monotone_in_years_witness :
  exists p1 p2,
    calculations_at (mkInputs 2025 55 100000 2 20 (ByAge 65) 1 40 20 2000000 0) 5
    = Ok p1
    /\ calculations_at (mkInputs 2025 55 100000 2 20 (ByAge 65) 1 40 20 2000000 0) 10
       = Ok p2
    /\ service_at_retirement p1 <= service_at_retirement p2
    /\ annual_pension p1 <= annual_pension p2
    /\ lump_sum p1 <= lump_sum p2
    /\ sft_value p1 <= sft_value p2.
Proof.
  apply (valuation_monotone_in_years
           (mkInputs 2025 55 100000 2 20 (ByAge 65) 1 40 20 2000000 0) 5 10);
    cbn; solve [discriminate | lia].
Defined.

(** X11: with a non-negative salary and salary growth, the annual pension is
    at most the final salary times cap/80 and the lump sum at most the final
    salary times cap/30, however long the service. *)
Theorem benefits_bounded_by_cap (inp : Inputs) (years : Z)
  (Hsalary : 0 <= current_salary inp)
  (Hgrowth : 0 <= salary_growth_pct inp)
  (Hyears : (0 <= years)%Z) :
  exists p,
    calculations_at inp years = Ok p
    /\ service_at_retirement p <= max_service_cap inp
    /\ annual_pension p <= final_salary p * (max_service_cap inp / 80)
    /\ lump_sum p <= final_salary p * (max_service_cap inp / 30).
Proof.
  destruct (calculations_at_fields inp years Hyears)
    as [p [E [Hfs [Hsv [Hpen [Hls _]]]]]].
  exists p. split; [exact E |].
  assert (Hle : service_at_retirement p <= max_service_cap inp).
  { rewrite Hsv. apply min_le_cap. }
  assert (Hfs_pos : 0 <= final_salary p).
  { rewrite Hfs. now apply final_salary_nonneg. }
  split; [exact Hle |]. split.
  - rewrite Hpen, !(Qmult_comm (final_salary p)).
    apply Qmult_le_compat_r; [| assumption].
    unfold Qdiv. apply Qmult_le_compat_r; [assumption | discriminate].
  - rewrite Hls, !(Qmult_comm (final_salary p)).
    apply Qmult_le_compat_r; [| assumption].
    unfold Qdiv. apply Qmult_le_compat_r; [assumption | discriminate].
Qed.

(** The theorem for the default sidebar values, 30 years ahead. *)
Lemma benefits_bounded_by_cap_witness :
  let inp := mkInputs 2025 55 100000 2 20 (ByAge 65) 1 40 20 2000000 0 in
  exists p,
    calculations_at inp 30 = Ok p
    /\ service_at_retirement p <= max_service_cap inp
    /\ annual_pension p <= final_salary p * (max_service_cap inp / 80)
    /\ lump_sum p <= final_salary p * (max_service_cap inp / 30).
Proof.
  apply (benefits_bounded_by_cap
           (mkInputs 2025 55 100000 2 20 (ByAge 65) 1 40 20 2000000 0) 30);
    cbn; solve [discriminate | lia].
Defined.

(** ** Rounding of the displayed values *)

Lemma round_half_even_close (x : Q) :
  inject_Z (round_half_even x) - x <= 1 # 2
  /\ x - inject_Z (round_half_even x) <= 1 # 2.
Proof.
  unfold round_half_even.
  assert (Hlo := Qfloor_le x). assert (Hhi := Qlt_floor x).
  rewrite inject_Z_plus in Hhi. change (inject_Z 1) with 1 in Hhi.
  destruct (Qcompare_spec (x - inject_Z (Qfloor x)) (1 # 2)) as [E | E | E].
  - destruct (Z.even (Qfloor x)).
    + split; lra.
    + rewrite inject_Z_plus. change (inject_Z 1) with 1. split; lra.
  - split; lra.
  - rewrite inject_Z_plus. change (inject_Z 1) with 1. split; lra.
Qed.

Lemma round_half_even_wd (x y : Q) : x == y -> round_half_even x = round_half_even y.
Proof.
  intros H. unfold round_half_even.
  assert (Hf : Qfloor x = Qfloor y) by now rewrite H.
  rewrite Hf.
  assert (Hc : (x - inject_Z (Qfloor y) ?= 1 # 2) = (y - inject_Z (Qfloor y) ?= 1 # 2))
    by now rewrite H.
  now rewrite Hc.
Qed.

(** Rounding depends on the number only, not on the fraction that stands for it. *)
Lemma round_wd (x y : Q) (ndigits : Z) : x == y -> Py.round x ndigits = Py.round y ndigits.
Proof.
  intros H. unfold Py.round.
  rewrite (round_half_even_wd (x * 10 ^ ndigits) (y * 10 ^ ndigits)); [reflexivity |].
  now rewrite H.
Qed.

Lemma round_0_close (x : Q) : Qabs (Py.round x 0 - x) <= 1 # 2.
Proof.
  unfold Py.round. change (10 ^ 0) with 1.
  destruct (round_half_even_close (x * 1)) as [H1 H2].
  apply Qabs_Qle_condition.
  set (k := inject_Z (round_half_even (x * 1))) in *.
  assert (E : k / 1 == k) by field.
  rewrite E. split; lra.
Qed.

Lemma round_2_close (x : Q) : Qabs (Py.round x 2 - x) <= 1 # 200.
Proof.
  unfold Py.round. change (10 ^ 2) with 100.
  destruct (round_half_even_close (x * 100)) as [H1 H2].
  apply Qabs_Qle_condition.
  set (k := inject_Z (round_half_even (x * 100))) in *.
  assert (E : k / 100 == k * (1 # 100)) by field.
  rewrite E. split; lra.
Qed.

(** X12: every amount shown in a scenario row is within half a unit of the
    computed amount, and the service shown is within 0.005 of the computed
    service. *)
Theorem scenario_row_rounding (inp : Inputs) (age : Z) :
  exists p r service salary pension lump value threshold,
    calculations_at inp (Z.max 0 (age - current_age inp)) = Ok p
    /\ scenario_row inp age = Ok r
    /\ get "Service (yrs)" r = Some (Float service)
    /\ Qabs (service - service_at_retirement p) <= 1 # 200
    /\ get "Final Salary (€)" r = Some (Float salary)
    /\ Qabs (salary - final_salary p) <= 1 # 2
    /\ get "Annual Pension (€)" r = Some (Float pension)
    /\ Qabs (pension - annual_pension p) <= 1 # 2
    /\ get "Lump Sum (€)" r = Some (Float lump)
    /\ Qabs (lump - lump_sum p) <= 1 # 2
    /\ get "SFT Value (€)" r = Some (Float value)
    /\ Qabs (value - sft_value p) <= 1 # 2
    /\ get "SFT Threshold (€)" r = Some (Float threshold)
    /\ Qabs (threshold - sft_threshold_future p) <= 1 # 2.
Proof.
  destruct (scenario_row_value inp age) as [p [Hp Hr]].
  exists p. do 7 eexists.
  split; [exact Hp |]. split; [exact Hr |].
  unfold row_of_projection. cbn [get String.eqb Ascii.eqb Bool.eqb].
  split; [reflexivity |]. split; [exact (round_2_close _) |].
  split; [reflexivity |]. split; [exact (round_0_close _) |].
  split; [reflexivity |]. split; [exact (round_0_close _) |].
  split; [reflexivity |]. split; [exact (round_0_close _) |].
  split; [reflexivity |]. split; [exact (round_0_close _) |].
  split; [reflexivity |]. exact (round_0_close _).
Qed.

(** ** Scenario rows *)

(** X13: nothing on the page raises, whatever the sidebar holds and whatever
    ages are selected for the loop: the years handed to the projectors are
    clamped at zero, so even a growth of -100% cannot fail.  (The sort of the
    table is not part of this statement.) *)
Theorem projections_never_raise (inp : Inputs) :
  (exists p, calculations inp = Ok p)
  /\ (forall age, exists r, scenario_row inp age = Ok r)
  /\ (forall ages rows, exists rows', scenario_loop inp ages rows = Ok rows').
Proof.
  split; [| split].
  - eexists. apply calculations_at_value, years_to_retirement_nonneg.
  - intros age. destruct (scenario_row_value inp age) as [p [_ Hr]].
    eexists. exact Hr.
  - intros ages rows. destruct (scenario_loop_value inp ages rows) as [added [Hl _]].
    eexists. exact Hl.
Qed.

Lemma min_wd (x y cap : Q) : x == y -> Py.min x cap == Py.min y cap.
Proof.
  intros H. unfold Py.min.
  assert (El : Py.lt cap x = Py.lt cap y) by (unfold Py.lt; now rewrite H).
  rewrite El. destruct (Py.lt cap y); [reflexivity | exact H].
Qed.

Lemma years_at_retirement_age (inp : Inputs) :
  Z.max 0 (retirement_age inp - current_age inp) = years_to_retirement inp.
Proof.
  assert (H := years_to_retirement_nonneg inp). revert H.
  unfold retirement_age, years_to_retirement.
  destruct (target_mode inp); rewrite ?max0_is_max; lia.
Qed.

(** X14: the row of the table for the retirement age of the sidebar shows the
    results of the summary: same years to retirement and same projection;
    its retirement year is that of the sidebar when the target is not in the
    past. *)
Theorem table_row_agrees_with_summary (inp : Inputs) :
  exists p,
    calculations inp = Ok p
    /\ scenario_row inp (retirement_age inp)
       = Ok (row_of_projection inp (retirement_age inp) p)
    /\ get "Years to Ret" (row_of_projection inp (retirement_age inp) p)
       = Some (Int (years_to_retirement inp))
    /\ (target_in_past inp = false ->
        get "Ret Year" (row_of_projection inp (retirement_age inp) p)
        = Some (Int (retirement_year inp))).
Proof.
  destruct (scenario_row_value inp (retirement_age inp)) as [p [Hp Hr]].
  rewrite years_at_retirement_age in Hp.
  exists p. split; [exact Hp |]. split; [exact Hr |].
  cbn [get row_of_projection String.eqb Ascii.eqb Bool.eqb].
  rewrite years_at_retirement_age. split; [reflexivity |].
  intros Hpast. do 2 f_equal.
  destruct (target_offsets_agree_aux inp) as [_ H]. specialize (H Hpast). lia.
Qed.

(** X15: an age at or below the current age gives a row for an immediate
    retirement: zero years, the current year, the current salary and
    threshold (rounded), and the current service capped. *)
Theorem past_age_row_is_today (inp : Inputs) (age : Z)
  (Hage : (age <= current_age inp)%Z) :
  exists r,
    scenario_row inp age = Ok r
    /\ get "Ret Age" r = Some (Int age)
    /\ get "Years to Ret" r = Some (Int 0)
    /\ get "Ret Year" r = Some (Int (current_year inp))
    /\ get "Final Salary (€)" r = Some (Float (Py.round (current_salary inp) 0))
    /\ get "SFT Threshold (€)" r = Some (Float (Py.round (sft_now inp) 0))
    /\ get "Service (yrs)" r
       = Some (Float (Py.round (Py.min (current_service inp) (max_service_cap inp)) 2)).
Proof.
  unfold scenario_row. rewrite max0_is_max.
  replace (Z.max 0 (age - current_age inp)) with 0%Z by lia.
  rewrite (project_final_salary_value _ _ 0 ltac:(lia)),
          (sft_at_year_value _ _ 0 ltac:(lia)).
  cbn [bind classic_db_pension]. eexists. split; [reflexivity |].
  cbn [get String.eqb Ascii.eqb Bool.eqb].
  split; [reflexivity |]. split; [reflexivity |].
  split; [now rewrite Z.add_0_r |].
  split; [do 2 f_equal; apply round_wd; cbn; ring |].
  split; [do 2 f_equal; apply round_wd; cbn; ring |].
  do 2 f_equal. apply round_wd. unfold project_service.
  apply min_wd. cbn. ring.
Qed.

(** The theorem at current age 60 for the age 55. *)
Lemma past_age_row_is_today_witness :
  let inp := mkInputs 2025 60 100000 2 20 (ByAge 65) 1 40 20 2000000 0 in
  exists r,
    scenario_row inp 55 = Ok r
    /\ get "Ret Age" r = Some (Int 55)
    /\ get "Years to Ret" r = Some (Int 0)
    /\ get "Ret Year" r = Some (Int (current_year inp))
    /\ get "Final Salary (€)" r = Some (Float (Py.round (current_salary inp) 0))
    /\ get "SFT Threshold (€)" r = Some (Float (Py.round (sft_now inp) 0))
    /\ get "Service (yrs)" r
       = Some (Float (Py.round (Py.min (current_service inp) (max_service_cap inp)) 2)).
Proof.
  apply (past_age_row_is_today
           (mkInputs 2025 60 100000 2 20 (ByAge 65) 1 40 20 2000000 0) 55).
  cbn. lia.
Defined.

(** ** The scenario table *)

Lemma Forall2_permutation {A B : Type} (R : A -> B -> Prop) (l l' : list A) :
  Permutation l l' ->
  forall m, Forall2 R l m -> exists m', Forall2 R l' m' /\ Permutation m m'.
Proof.
  induction 1 as [| x l l' _ IH | x y l | l l' l'' _ IH1 _ IH2]; intros m Hm.
  - inversion Hm; subst. exists []. split; constructor.
  - inversion Hm as [| ? b ? m0 Hb Hm0]; subst.
    destruct (IH _ Hm0) as [m' [Hf Hp]].
    exists (b :: m'). split; [now constructor | now apply perm_skip].
  - inversion Hm as [| ? b ? m0 Hb Hm0]; subst.
    inversion Hm0 as [| ? c ? m1 Hc Hm1]; subst.
    exists (c :: b :: m1). split; [repeat constructor; assumption | apply perm_swap].
  - destruct (IH1 _ Hm) as [m' [Hf Hp]].
    destruct (IH2 _ Hf) as [m'' [Hf' Hp']].
    exists m''. split; [assumption | now apply perm_trans with m'].
Qed.

Lemma rows_are_determined (inp : Inputs) (ages : list Z) :
  forall rows1 rows2,
    Forall2 (is_row_for inp) ages rows1 ->
    Forall2 (is_row_for inp) ages rows2 ->
    rows1 = rows2.
Proof.
  induction ages as [| age rest IH]; intros rows1 rows2 H1 H2.
  - inversion H1; inversion H2; reflexivity.
  - inversion H1 as [| ? r1 ? m1 Hr1 Hm1]; subst.
    inversion H2 as [| ? r2 ? m2 Hr2 Hm2]; subst.
    f_equal; [now apply (is_row_for_unique inp age) | now apply IH].
Qed.

(** Rows of the loop with the same retirement age are the same row. *)
Lemma rows_key_injective (inp : Inputs) (ages : list Z) (rows : list dict) :
  Forall2 (is_row_for inp) ages rows ->
  forall a b, In a rows -> In b rows ->
              key_of "Ret Age" a = key_of "Ret Age" b -> a = b.
Proof.
  intros Hf.
  assert (Hrow : forall r, In r rows -> is_row_for inp (ret_age r) r).
  { induction Hf as [| age r ages' rows' Hr _ IH]; intros x [].
    - subst x. now destruct (is_row_for_age _ _ _ Hr) as [_ ->].
    - now apply IH. }
  intros a b Ha Hb Hk.
  apply (is_row_for_unique inp (ret_age a)); [now apply Hrow |].
  unfold ret_age at 1. rewrite Hk. now apply Hrow.
Qed.

Lemma row_labels (inp : Inputs) (age : Z) (r : dict) :
  is_row_for inp age r ->
  map fst r = scenario_labels
  /\ add_labels [] r = scenario_labels
  /\ add_labels scenario_labels r = scenario_labels.
Proof.
  intros [p [_ ->]]. repeat split.
Qed.

Lemma rows_columns (inp : Inputs) (ages : list Z) (rows : list dict) :
  Forall2 (is_row_for inp) ages rows -> rows <> [] ->
  columns (of_records rows) = scenario_labels.
Proof.
  intros Hf Hne. destruct Hf as [| age r ages' rows' Hr Hf']; [congruence |].
  cbn. destruct (row_labels _ _ _ Hr) as [_ [-> _]].
  clear Hr Hne. induction Hf' as [| age' r' ages'' rows'' Hr' _ IH]; cbn; [reflexivity |].
  destruct (row_labels _ _ _ Hr') as [_ [_ ->]]. exact IH.
Qed.

(** X16: for a non-empty selection the table has exactly the ten columns of
    the row dict, in its order, and every row of the table fills all ten. *)
Theorem scenarios_columns (inp : Inputs) (age : Z) (rest : list Z) :
  exists df,
    scenarios inp (age :: rest) = Ok df
    /\ columns df = scenario_labels
    /\ Forall (fun r => map fst r = scenario_labels) (records df).
Proof.
  destruct (scenario_loop_value inp (age :: rest) []) as [rows [Hl Hf]].
  cbn [app] in Hl.
  eexists. split; [apply (scenarios_nonempty _ _ _ _ Hl Hf) |].
  cbn [columns records]. split.
  - apply (rows_columns inp (age :: rest)); [assumption |].
    inversion Hf; congruence.
  - eapply Permutation_Forall; [apply sort_by_perm |].
    clear Hl. induction Hf as [| a r ages' rows' Hr _ IH]; constructor.
    + now destruct (row_labels _ _ _ Hr).
    + exact IH.
Qed.

(** X17: the contents of the table do not depend on the order in which the
    ages were selected: two selections that are permutations of each other
    give the same columns and the same rows, top to bottom, or the same
    exception.  The row labels that pandas keeps through the sort, which
    record where each age stood in the selection, are not part of the
    statement. *)
Theorem scenarios_rows_ignore_selection_order (inp : Inputs) (ages ages' : list Z)
  (Hperm : Permutation ages ages') :
  match scenarios inp ages, scenarios inp ages' with
  | Ok df, Ok df' => columns df = columns df' /\ records df = records df'
  | Raise e, Raise e' => e = e'
  | _, _ => False
  end.
Proof.
  destruct ages as [| a rest].
  { apply Permutation_nil in Hperm. subst. cbn. reflexivity. }
  destruct ages' as [| a' rest'].
  { apply Permutation_sym, Permutation_nil in Hperm. discriminate. }
  destruct (scenario_loop_value inp (a :: rest) []) as [rows [Hl Hf]].
  destruct (scenario_loop_value inp (a' :: rest') []) as [rows' [Hl' Hf']].
  cbn [app] in Hl, Hl'.
  rewrite (scenarios_nonempty _ _ _ _ Hl Hf), (scenarios_nonempty _ _ _ _ Hl' Hf').
  cbn [columns records].
  assert (Hne : rows <> []) by (inversion Hf; congruence).
  assert (Hne' : rows' <> []) by (inversion Hf'; congruence).
  rewrite (rows_columns _ _ _ Hf Hne), (rows_columns _ _ _ Hf' Hne').
  split; [reflexivity |].
  destruct (Forall2_permutation _ _ _ Hperm _ Hf) as [m [Hm Hpm]].
  rewrite (rows_are_determined _ _ _ _ Hm Hf') in Hpm.
  apply sorted_arrangement_unique with (col := "Ret Age"%string).
  - intros x y Hx Hy. apply (rows_key_injective _ _ _ Hf).
    + eapply Permutation_in; [apply Permutation_sym, sort_by_perm | exact Hx].
    + eapply Permutation_in; [apply Permutation_sym, sort_by_perm | exact Hy].
  - eapply perm_trans; [apply Permutation_sym, sort_by_perm |].
    eapply perm_trans; [exact Hpm | apply sort_by_perm].
  - apply sort_by_sorted.
  - apply sort_by_sorted.
Qed.

(** The theorem for the selections 65, 60, 62 and 60, 62, 65. *)
Lemma scenarios_rows_ignore_selection_order_witness :
  match scenarios (mkInputs 2025 55 100000 2 20 (ByAge 65) 1 40 20 2000000 0)
                  [65; 60; 62]%Z,
        scenarios (mkInputs 2025 55 100000 2 20 (ByAge 65) 1 40 20 2000000 0)
                  [60; 62; 65]%Z with
  | Ok df, Ok df' => columns df = columns df' /\ records df = records df'
  | Raise e, Raise e' => e = e'
  | _, _ => False
  end.
Proof.
  apply (scenarios_rows_ignore_selection_order
           (mkInputs 2025 55 100000 2 20 (ByAge 65) 1 40 20 2000000 0)
           [65; 60; 62]%Z [60; 62; 65]%Z).
  apply Permutation_sym.
  apply perm_trans with [60; 65; 62]%Z.
  - apply perm_skip, perm_swap.
  - apply perm_swap.
Defined.

(** The theorem for the ages 65 and 60: the rows of the loop taken in
    reverse are in ascending order, hence they are the table. *)
Lemma scenarios_table_is_forced_witness :
  exists rows,
    scenario_loop (mkInputs 2025 55 100000 2 20 (ByAge 65) 1 40 20 2000000 0)
                  [65; 60]%Z [] = Ok rows
    /\ rev rows = sort_by "Ret Age" rows.
Proof.
  eexists. split; [vm_compute; reflexivity |].
  eapply (scenarios_table_is_forced
            (mkInputs 2025 55 100000 2 20 (ByAge 65) 1 40 20 2000000 0)
            [65; 60]%Z).
  - vm_compute. reflexivity.
  - apply Permutation_rev.
  - repeat constructor. vm_compute. discriminate.
Defined.
